(** * PiCanvas: content renderer and tab controller

    A shallow embedding of the two core units of the PiCanvas web part:

    - [ContentRenderer] (TypeScript, class [ContentRenderer]): the pure
      string functions behind embeds, diagram identifiers, feed dates and
      feed descriptions, and the guarded entry points [renderMarkdown]
      and [renderHtml];
    - [AddTabs] (JavaScript, [AddTabs.js]): the tab state machine
      ([activateTab], the click / keyboard / deep-link handlers, the ARIA
      set-up) and the banner mutation observer with its height-lock guard.

    String model.  A JavaScript string is a sequence of UTF-16 code units.
    Here a string is a [string] of [ascii] characters, one character per
    code unit, so the development speaks about strings whose code units
    are below 256; [String.length] is then the [.length] of the source.

    What the code calls but does not define is a parameter of the
    functions that use it: the platform's [URL] parser, the libraries
    [marked] and [DOMPurify], the clock ([Date.now()], [new Date()]) and
    the calendar getters of [Date].  Logging to the console is left out.

    The file has three parts: the embedding (modules [JS],
    [ContentRenderer], [AddTabs]), the properties as the specification
    words them ([Claims], [TabClaims]), and the proofs ([RendererProps],
    [TabsProps]). *)

From Stdlib Require Import ZArith Bool Ascii String List Lia DecimalString DecimalPos.
From stdpp Require Import base tactics option list.
Import ListNotations.

(** ** JavaScript string primitives used by the sources *)

Module JS.
Local Open Scope string_scope.

(** The double-quote character, code unit 34, and the one-character
    string made of it. *)
Definition dqc : ascii := Ascii false true false false false true false false.
Definition dq : string := String dqc EmptyString.

(** [name="value"], as it is written inside the template literals. *)
Definition attr (name value : string) : string :=
  name ++ "=" ++ dq ++ value ++ dq.

Definition code (c : ascii) : N := N_of_ascii c.

Definition between (lo hi : N) (c : ascii) : bool :=
  ((lo <=? code c) && (code c <=? hi))%N.

(** [\d] *)
Definition isDigit (c : ascii) : bool := between 48 57 c.
(** [[A-Z]] and [[a-z]] *)
Definition isUpper (c : ascii) : bool := between 65 90 c.
Definition isLower (c : ascii) : bool := between 97 122 c.
Definition isLetter (c : ascii) : bool := isUpper c || isLower c.

Definition hyphen : ascii := "-"%char.
Definition isHyphen (c : ascii) : bool := Ascii.eqb c hyphen.

(** White space and line terminators removed by [String.prototype.trim],
    among the code units below 256: TAB, LF, VT, FF, CR, SPACE, NBSP. *)
Definition isWhiteSpace (c : ascii) : bool :=
  between 9 13 c || (code c =? 32)%N || (code c =? 160)%N.

(** [!s] for a string: only the empty string is falsy. *)
Definition falsy (s : string) : bool :=
  match s with EmptyString => true | _ => false end.

Fixpoint smap (f : ascii -> ascii) (s : string) : string :=
  match s with
  | EmptyString => EmptyString
  | String c s' => String (f c) (smap f s')
  end.

Fixpoint sforall (p : ascii -> bool) (s : string) : bool :=
  match s with
  | EmptyString => true
  | String c s' => p c && sforall p s'
  end.

(** Drop the longest prefix of characters satisfying [p]. *)
Fixpoint dropWhile (p : ascii -> bool) (s : string) : string :=
  match s with
  | EmptyString => EmptyString
  | String c s' => if p c then dropWhile p s' else s
  end.

(** Keep the longest prefix of characters satisfying [p]. *)
Fixpoint takeWhile (p : ascii -> bool) (s : string) : string :=
  match s with
  | EmptyString => EmptyString
  | String c s' => if p c then String c (takeWhile p s') else EmptyString
  end.

(** Drop the longest suffix of characters satisfying [p]. *)
Fixpoint dropWhileEnd (p : ascii -> bool) (s : string) : string :=
  match s with
  | EmptyString => EmptyString
  | String c s' =>
      match dropWhileEnd p s' with
      | EmptyString => if p c then EmptyString else String c EmptyString
      | r => String c r
      end
  end.

(** [s.trim()] *)
Definition trim (s : string) : string :=
  dropWhileEnd isWhiteSpace (dropWhile isWhiteSpace s).

(** [s.startsWith(p)] *)
Definition startsWith (s p : string) : bool := String.prefix p s.

Fixpoint drop (n : nat) (s : string) : string :=
  match n, s with
  | O, _ => s
  | S n', String _ s' => drop n' s'
  | S _, EmptyString => EmptyString
  end.

(** [s.endsWith(p)]: the last [p.length] code units of [s] are [p]. *)
Definition endsWith (s p : string) : bool :=
  (String.length p <=? String.length s)%nat
  && String.eqb (drop (String.length s - String.length p) s) p.

(** [s.substring(0, n)] for an integer [n]; a negative [n] counts as 0 and
    an [n] beyond the end as the length. *)
Definition substring0 (n : Z) (s : string) : string :=
  String.substring 0 (Z.to_nat n) s.

(** [s.toLowerCase()] on code units below 256: [A-Z] and the Latin-1
    capitals (192..222 without the multiplication sign 215) move by 32. *)
Definition lowerChar (c : ascii) : ascii :=
  if isUpper c || (between 192 222 c && negb (code c =? 215)%N)
  then ascii_of_N (code c + 32) else c.

Definition toLowerCase (s : string) : string := smap lowerChar s.

(** [s.replace(/c/g, by)] for a single literal character [c]. *)
Fixpoint replaceAll (c : ascii) (by_ : string) (s : string) : string :=
  match s with
  | EmptyString => EmptyString
  | String x s' =>
      (if Ascii.eqb x c then by_ else String x EmptyString) ++ replaceAll c by_ s'
  end.

(** [s.indexOf(p) !== -1] *)
Fixpoint includes (p s : string) : bool :=
  String.prefix p s ||
  match s with
  | EmptyString => false
  | String _ s' => includes p s'
  end.

(** [n.toString()] for an integer. *)
Definition toString (n : Z) : string := NilEmpty.string_of_int (Z.to_int n).

(** [s.padStart(2, '0')] *)
Definition padStart2 (s : string) : string :=
  match String.length s with
  | 0%nat => "00"
  | 1%nat => "0" ++ s
  | _ => s
  end.

End JS.

(** ** ContentRenderer *)

Module ContentRenderer.
Import JS.
Local Open Scope string_scope.

(** *** [makeCssSafeId] *)

(** The character class [[a-zA-Z0-9_-]]. *)
Definition isIdChar (c : ascii) : bool :=
  isLetter c || isDigit c || Ascii.eqb c "_"%char || isHyphen c.

(** [/^[0-9]/.test(s)] *)
Definition startsWithDigit (s : string) : bool :=
  match s with
  | String c _ => isDigit c
  | EmptyString => false
  end.

(** [s.replace(/-+/g, '-')]: every maximal run of hyphens becomes one.
    [prev] tells that the character before [s] was a hyphen of the run
    already written. *)
Fixpoint collapseFrom (prev : bool) (s : string) : string :=
  match s with
  | EmptyString => EmptyString
  | String c s' =>
      if isHyphen c
      then (if prev then collapseFrom true s'
            else String hyphen (collapseFrom true s'))
      else String c (collapseFrom false s')
  end.

Definition collapseHyphens (s : string) : string := collapseFrom false s.

(** [s.replace(/^-+|-+$/g, '')] *)
Definition stripHyphens (s : string) : string :=
  dropWhileEnd isHyphen (dropWhile isHyphen s).

(** [makeCssSafeId(str)]; [now] is the value of [Date.now()]. *)
Definition makeCssSafeId (now : Z) (str : string) : string :=
  if falsy str then "mermaid-" ++ toString now
  else
    let safeId := smap (fun c => if isIdChar c then c else hyphen) str in
    let safeId := if startsWithDigit safeId then "m-" ++ safeId else safeId in
    let safeId := collapseHyphens safeId in
    let safeId := stripHyphens safeId in
    if falsy safeId then "mermaid-" ++ toString now else safeId.

(** *** [encodeHtml] *)

(** Five global replacements, in the order of the source. *)
Definition encodeHtml (str : string) : string :=
  if falsy str then ""
  else
    replaceAll "'"%char "&#39;"
      (replaceAll dqc "&quot;"
        (replaceAll ">"%char "&gt;"
          (replaceAll "<"%char "&lt;"
            (replaceAll "&"%char "&amp;" str)))).

(** *** [sanitizeCssValue] *)

Definition isDigitOrDot (c : ascii) : bool := isDigit c || Ascii.eqb c "."%char.

(** Case folding of a regular expression with the [i] flag and without
    the [u] flag: a code unit of 128 or more never folds to an ASCII
    letter, so on the units below only [A-Z] and [a-z] are identified. *)
Definition foldCase (c : ascii) : ascii :=
  if isUpper c then ascii_of_N (code c + 32) else c.

(** [(px|em|rem|%|vh|vw)] under the [i] flag. *)
Definition isCssUnit (s : string) : bool :=
  existsb (String.eqb (smap foldCase s)) ["px"; "em"; "rem"; "%"; "vh"; "vw"].

(** [/^[\d.]+(px|em|rem|%|vh|vw)?$/i.test(s)].  No unit starts with a
    digit or a dot, so a match has to give the whole leading run of
    digits and dots to [[\d.]+]; what follows is empty or a unit. *)
Definition safePattern (s : string) : bool :=
  negb (falsy (takeWhile isDigitOrDot s))
  && (let rest := dropWhile isDigitOrDot s in falsy rest || isCssUnit rest).

(** [/^\d+$/.test(s)] *)
Definition allDigits (s : string) : bool := negb (falsy s) && sforall isDigit s.

Definition sanitizeCssValue (value : string) : string :=
  if falsy value then ""
  else
    let trimmed := trim value in
    if safePattern trimmed then trimmed
    else if allDigits trimmed then trimmed ++ "px"
    else "400px".

(** *** Embeds *)

Definition DEFAULT_TRUSTED_DOMAINS : list string :=
  [ "youtube.com"; "youtu.be"; "youtube-nocookie.com";
    "vimeo.com"; "player.vimeo.com";
    "powerbi.com"; "app.powerbi.com";
    "powerapps.com"; "apps.powerapps.com";
    "flow.microsoft.com";
    "forms.office.com"; "forms.microsoft.com";
    "sharepoint.com"; "sharepoint-df.com";
    "onedrive.live.com"; "onedrive.com";
    "sway.office.com"; "sway.com";
    "microsoft.com"; "office.com";
    "stream.microsoft.com"; "web.microsoftstream.com";
    "teams.microsoft.com";
    "loop.microsoft.com";
    "canva.com";
    "figma.com";
    "miro.com";
    "lucid.app"; "lucidchart.com";
    "whimsical.com";
    "loom.com";
    "calendly.com";
    "typeform.com";
    "airtable.com";
    "notion.so"; "notion.site";
    "coda.io";
    "mural.co";
    "pitch.com";
    "pideas.studio" ].

Inductive PostRenderType := mermaid | rss | landing.

Record IRenderResult := {
  html : string;
  requiresPostRender : option bool;
  postRenderType : option PostRenderType
}.

(** The object literal [{ html }]. *)
Definition htmlOnly (h : string) : IRenderResult :=
  {| html := h; requiresPostRender := None; postRenderType := None |}.

(** An optional field is [None] when the caller left it [undefined]. *)
Record IEmbedConfig := {
  url : string;
  height : option string;
  additionalDomains : option (list string);
  defer : option bool
}.

(** The two fields of a parsed [URL] object that the code reads. *)
Record URL := { protocol : string; hostname : string }.

(** [s.replace(/^www\./, '')] *)
Definition stripWww (s : string) : string :=
  if startsWith s "www." then drop 4 s else s.

(** The test inside [allAllowed.some(...)]. *)
Definition domainMatches (domain allowed : string) : bool :=
  let pattern := toLowerCase (stripWww allowed) in
  String.eqb domain pattern || endsWith domain ("." ++ pattern).

Definition noUrlNotice : string :=
  "<p " ++ attr "class" "picanvas-render-error" ++ ">No embed URL provided</p>".

Definition blockedNotice : string :=
  "
          <div " ++ attr "class" "picanvas-embed-blocked" ++ ">
            <span " ++ attr "class" "blocked-icon" ++ ">üö´</span>
            <span " ++ attr "class" "blocked-text" ++ ">This embed URL is not allowed.</span>
            <details>
              <summary>Allowed domains</summary>
              <p>Contact your site administrator to add this domain to the allow list.</p>
            </details>
          </div>
        ".

Section Embed.

(** [new URL(url)] is the platform's parser; [None] stands for the
    [TypeError] it throws on a string that is not a URL. *)
Variable parseURL : string -> option URL.

Definition sanitizeEmbedUrl (url : string) (additionalDomains : list string) : string :=
  let allAllowed := (DEFAULT_TRUSTED_DOMAINS ++ additionalDomains)%list in
  match parseURL url with
  | None => ""
  | Some parsed =>
      if negb (String.eqb (protocol parsed) "https:") then ""
      else
        let domain := toLowerCase (stripWww (hostname parsed)) in
        let isAllowed := existsb (domainMatches domain) allAllowed in
        if negb isAllowed then "" else url
  end.

Definition renderEmbed (config : IEmbedConfig) : IRenderResult :=
  let url := url config in
  let height := default "400px" (height config) in
  let additionalDomains := default [] (additionalDomains config) in
  let defer := default false (defer config) in
  if falsy url then htmlOnly noUrlNotice
  else
    let sanitizedUrl := sanitizeEmbedUrl url additionalDomains in
    if falsy sanitizedUrl then htmlOnly blockedNotice
    else
      let encodedUrl := encodeHtml sanitizedUrl in
      let iframeSrcAttr :=
        if defer then attr "data-src" encodedUrl else attr "src" encodedUrl in
      htmlOnly ("
      <div " ++ attr "class" "picanvas-embed-container" ++ " "
             ++ attr "style" ("height: " ++ sanitizeCssValue height) ++ ">
        <iframe
          " ++ iframeSrcAttr ++ "
          " ++ attr "style" "width: 100%; height: 100%; border: none;" ++ "
          " ++ attr "loading" "lazy" ++ "
          allowfullscreen
          " ++ attr "referrerpolicy" "no-referrer-when-downgrade" ++ "
          " ++ attr "sandbox" "allow-scripts allow-same-origin allow-forms allow-popups allow-presentation" ++ "
        ></iframe>
      </div>
    ").

End Embed.

(** *** [renderMarkdown] and [renderHtml] *)

(** The values a caller can pass where the signature says [string]. *)
Inductive JSValue :=
  | JSUndefined
  | JSNull
  | JSBoolean (b : bool)
  | JSNumber (n : Z)
  | JSString (s : string)
  | JSObject.

(** The outcome of evaluating code that may throw. *)
Inductive Completion (A : Type) :=
  | Normal (a : A)
  | Throw (e : JSValue).
Arguments Normal {A} a.
Arguments Throw {A} e.

Definition bind {A B} (c : Completion A) (k : A -> Completion B) : Completion B :=
  match c with
  | Normal a => k a
  | Throw e => Throw e
  end.

Notation "'let!' x ':=' c 'in' k" := (bind c (fun x => k))
  (at level 10, x name, c at level 100, k at level 200).

(** [try { body } catch (error) { handler }] *)
Definition tryCatch {A} (body : Completion A) (handler : JSValue -> Completion A)
  : Completion A :=
  match body with
  | Normal a => Normal a
  | Throw e => handler e
  end.

Record MarkedOptions := { gfm : bool; breaks : bool }.

(** The configuration object given to [DOMPurify.sanitize];
    [ADD_TAGS] is [None] where the call does not set it. *)
Record SanitizeConfig := {
  USE_PROFILES_html : bool;
  ADD_TAGS : option (list string);
  ADD_ATTR : list string;
  FORBID_TAGS : list string;
  FORBID_ATTR : list string
}.

(** [!content || typeof content !== 'string'] *)
Definition emptyOrNotString (content : JSValue) : bool :=
  match content with
  | JSString s => falsy s
  | _ => true
  end.

Definition markdownError : string :=
  "<p " ++ attr "class" "picanvas-render-error" ++ ">Error rendering Markdown content</p>".

Definition htmlError : string :=
  "<p " ++ attr "class" "picanvas-render-error" ++ ">Error rendering HTML content</p>".

(** The option objects of the library calls. *)
Definition markedOptions : MarkedOptions := {| gfm := true; breaks := true |}.

Definition markdownProfile : SanitizeConfig :=
  {| USE_PROFILES_html := true;
     ADD_TAGS := None;
     ADD_ATTR := ["target"; "rel"];
     FORBID_TAGS := ["style"; "script"];
     FORBID_ATTR := ["onerror"; "onload"; "onclick"; "onmouseover"] |}.

Definition htmlProfile : SanitizeConfig :=
  {| USE_PROFILES_html := true;
     ADD_TAGS := Some ["iframe"];
     ADD_ATTR := ["target"; "rel"; "allow"; "allowfullscreen"; "frameborder";
                  "scrolling"; "loading"; "referrerpolicy"; "sandbox"];
     FORBID_TAGS := ["script"];
     FORBID_ATTR := ["onerror"; "onload"; "onclick"; "onmouseover";
                     "onmouseout"; "onfocus"; "onblur"] |}.

Section Sanitized.

(** The two libraries the renderer calls, [marked.parse] and
    [DOMPurify.sanitize]; either may throw. *)
Variable marked_parse : string -> MarkedOptions -> Completion string.
Variable DOMPurify_sanitize : string -> SanitizeConfig -> Completion string.

Definition renderMarkdown (content : JSValue) : Completion IRenderResult :=
  match content with
  | JSString s =>
      if falsy s then Normal (htmlOnly "")
      else
        tryCatch
          (let! rawHtml := marked_parse s markedOptions in
           let! sanitizedHtml := DOMPurify_sanitize rawHtml markdownProfile in
           Normal (htmlOnly sanitizedHtml))
          (fun error => Normal (htmlOnly markdownError))
  | _ => Normal (htmlOnly "")
  end.

Definition renderHtml (content : JSValue) : Completion IRenderResult :=
  match content with
  | JSString s =>
      if falsy s then Normal (htmlOnly "")
      else
        tryCatch
          (let! sanitizedHtml := DOMPurify_sanitize s htmlProfile in
           Normal (htmlOnly sanitizedHtml))
          (fun error => Normal (htmlOnly htmlError))
  | _ => Normal (htmlOnly "")
  end.

End Sanitized.

(** *** Feeds *)

(** What [formatRssDate] can be handed as [date]: something that is not a
    [Date] (or is [null]), a [Date] whose time is [NaN], or a [Date] with
    its time in milliseconds. *)
Inductive DateArg :=
  | NotADate
  | InvalidDate
  | ValidDate (time : Z).

Record IRssRenderItem := {
  title : string;
  link : string;
  description : string;
  publishedDate : DateArg;
  author : string;
  thumbnail : option string
}.

Record IRssDisplayConfig := {
  showDate : bool;
  showDescription : bool;
  showImage : bool;
  showAuthor : bool;
  descriptionLimit : Z;
  dateFormat : string;
  linkTarget : string
}.

Definition truncateRssText (text : string) (limit : Z) : string :=
  if falsy text || (Z.of_nat (String.length text) <=? limit)%Z then text
  else trim (substring0 limit text) ++ "...".

Section Feed.

(** The calendar fields of a time in the viewer's time zone:
    [getDate()], [getMonth()], [getFullYear()]. *)
Variable getDate getMonth getFullYear : Z -> Z.

(** The last six lines of [formatRssDate]. *)
Definition absoluteDate (time : Z) (format : string) : string :=
  let day := padStart2 (toString (getDate time)) in
  let month := padStart2 (toString (getMonth time + 1)) in
  let year := toString (getFullYear time) in
  if String.eqb format "DD/MM/YYYY" then day ++ "/" ++ month ++ "/" ++ year
  else month ++ "/" ++ day ++ "/" ++ year.

(** The body of [if (format === 'relative')]: [Some] is a [return],
    [None] leaves the block. *)
Definition relativeDate (now time : Z) : option string :=
  let diffMs := (now - time)%Z in
  let diffMins := (diffMs / 60000)%Z in
  let diffHours := (diffMins / 60)%Z in
  let diffDays := (diffHours / 24)%Z in
  if (diffMins <? 1)%Z then Some "Just now"
  else if (diffMins <? 60)%Z then Some (toString diffMins ++ "m ago")
  else if (diffHours <? 24)%Z then Some (toString diffHours ++ "h ago")
  else if (diffDays =? 1)%Z then Some "Yesterday"
  else if (diffDays <? 7)%Z then Some (toString diffDays ++ "d ago")
  else if (diffDays <? 30)%Z then Some (toString (diffDays / 7)%Z ++ "w ago")
  else None.

(** [formatRssDate(date, format)]; [now] is [new Date().getTime()]. *)
Definition formatRssDate (now : Z) (date : DateArg) (format : string) : string :=
  match date with
  | ValidDate time =>
      match (if String.eqb format "relative" then relativeDate now time else None) with
      | Some r => r
      | None => absoluteDate time format
      end
  | _ => ""
  end.

(** The arrow function mapped over the items by [renderRssList]. *)
Definition renderRssListItem (now : Z) (config : IRssDisplayConfig) (item : IRssRenderItem)
  : string :=
  let thumbnail :=
    match thumbnail item with
    | Some t =>
        if showImage config && negb (falsy t)
        then "<div " ++ attr "class" "picanvas-rss-thumbnail" ++ "><img "
             ++ attr "src" (encodeHtml t) ++ " " ++ attr "alt" "" ++ " "
             ++ attr "loading" "lazy" ++ " /></div>"
        else ""
    | None => ""
    end in
  let date :=
    if showDate config
    then "<span " ++ attr "class" "picanvas-rss-date" ++ ">"
         ++ formatRssDate now (publishedDate item) (dateFormat config) ++ "</span>"
    else "" in
  let author :=
    if showAuthor config && negb (falsy (author item))
    then "<span " ++ attr "class" "picanvas-rss-author" ++ ">"
         ++ encodeHtml (author item) ++ "</span>"
    else "" in
  let meta :=
    if negb (falsy date) || negb (falsy author)
    then "<div " ++ attr "class" "picanvas-rss-meta" ++ ">" ++ date
         ++ (if negb (falsy date) && negb (falsy author) then " ‚Ä¢ " else "")
         ++ author ++ "</div>"
    else "" in
  let description :=
    if showDescription config && negb (falsy (description item))
    then "<div " ++ attr "class" "picanvas-rss-description" ++ ">"
         ++ encodeHtml (truncateRssText (description item) (descriptionLimit config))
         ++ "</div>"
    else "" in
  "
        <article " ++ attr "class" "picanvas-rss-item" ++ ">
          " ++ thumbnail ++ "
          <div " ++ attr "class" "picanvas-rss-content" ++ ">
            <a " ++ attr "href" (encodeHtml (link item)) ++ " "
                 ++ attr "target" (linkTarget config) ++ " "
                 ++ attr "rel" "noopener noreferrer" ++ " "
                 ++ attr "class" "picanvas-rss-title" ++ ">
              " ++ encodeHtml (title item) ++ "
            </a>
            " ++ meta ++ "
            " ++ description ++ "
          </div>
        </article>
      ".

(** [items.map(...).join('')] *)
Definition renderRssList (now : Z) (items : list IRssRenderItem) (config : IRssDisplayConfig)
  : string :=
  String.concat "" (map (renderRssListItem now config) items).

End Feed.

End ContentRenderer.

(** ** AddTabs: the tab controller *)

Module AddTabs.
Local Open Scope string_scope.
Local Open Scope list_scope.

(** *** The DOM the controller works on

    An attribute is [None] when the element does not carry it. *)

(** A child of the [[role=tabs]] holder. *)
Record Tab := {
  tab_class_active : bool;             (* class addui-Tabs-active *)
  aria_selected : option string;
  tab_tabindex : option string;
  aria_disabled : option string;
  data_placeholder : option string
}.

Record Iframe := { src : option string; data_src : option string }.

(** A child of the [[role=contents]] holder. *)
Record Panel := {
  class_active : bool;                 (* class active, from the markup *)
  panel_class_active : bool;           (* class addui-Tabs-active *)
  aria_hidden : option string;
  panel_tabindex : option string;
  data_lazy : option string;
  data_lazy_loaded : option string;
  iframes : list Iframe
}.

(** The notifications sent to the collaborators. *)
Inductive Event :=
  | LazyLoad (tabIndex : nat)          (* picanvas:lazy-load *)
  | TabChange (tabIndex : nat).        (* picanvas:tab-change *)

(** Work handed to [setTimeout], with its delay in milliseconds. *)
Inductive Task :=
  | FixBannersAll                      (* r.each(fixBannerWebparts) *)
  | FixPanel (index : nat)             (* the 50 ms pass of activateTab *)
  | LazyLoadFirst                      (* the deferred first lazy-load *)
  | ReflowFirst.

(** The variables of one [$add.Tabs] closure, the elements they point
    to, and what the closure has sent out. *)
Record State := {
  c : list Tab;                        (* the tabs *)
  r : list Panel;                      (* the panels *)
  u : nat;                             (* the active index *)
  isVertical : bool;
  focused : option nat;                (* the tab holding keyboard focus *)
  events : list Event;                 (* notifications, oldest first *)
  timeouts : list (nat * Task)         (* scheduled work, oldest first *)
}.

Definition attrIs (a : option string) (v : string) : bool :=
  match a with
  | Some x => String.eqb x v
  | None => false
  end.

Definition isPlaceholder (t : Tab) : bool := attrIs (data_placeholder t) "true".

(** [$tabs.eq(i).attr('data-placeholder') === 'true']; an index past the
    end selects nothing and the attribute reads [undefined]. *)
Definition placeholderAt (tabs : list Tab) (i : nat) : bool :=
  match tabs !! i with
  | Some t => isPlaceholder t
  | None => false
  end.

(** *** Element updates *)

Definition deselectTab (t : Tab) : Tab :=
  {| tab_class_active := false;
     aria_selected := Some "false";
     tab_tabindex := Some "-1";
     aria_disabled := aria_disabled t;
     data_placeholder := data_placeholder t |}.

Definition selectTab (t : Tab) : Tab :=
  {| tab_class_active := true;
     aria_selected := Some "true";
     tab_tabindex := Some "0";
     aria_disabled := aria_disabled t;
     data_placeholder := data_placeholder t |}.

Definition hidePanel (p : Panel) : Panel :=
  {| class_active := class_active p;
     panel_class_active := false;
     aria_hidden := Some "true";
     panel_tabindex := panel_tabindex p;
     data_lazy := data_lazy p;
     data_lazy_loaded := data_lazy_loaded p;
     iframes := iframes p |}.

Definition showPanel (p : Panel) : Panel :=
  {| class_active := class_active p;
     panel_class_active := true;
     aria_hidden := None;
     panel_tabindex := panel_tabindex p;
     data_lazy := data_lazy p;
     data_lazy_loaded := data_lazy_loaded p;
     iframes := iframes p |}.

(** [iframe[data-src]]: the deferred address becomes the live one. *)
Definition promoteIframe (f : Iframe) : Iframe :=
  match data_src f with
  | Some d => {| src := Some d; data_src := None |}
  | None => f
  end.

Definition needsLazyLoad (p : Panel) : bool :=
  attrIs (data_lazy p) "true" && negb (attrIs (data_lazy_loaded p) "true").

Definition markLazyLoaded (p : Panel) : Panel :=
  {| class_active := class_active p;
     panel_class_active := panel_class_active p;
     aria_hidden := aria_hidden p;
     panel_tabindex := panel_tabindex p;
     data_lazy := data_lazy p;
     data_lazy_loaded := Some "true";
     iframes := promoteIframe <$> iframes p |}.

(** *** [activateTab] *)

Definition activateTab (newIndex : nat) (focusTab : bool) (st : State) : bool * State :=
  if placeholderAt (c st) newIndex then (false, st)
  else
    let r1 := alter showPanel newIndex (hidePanel <$> r st) in
    let c1 := alter selectTab newIndex (deselectTab <$> c st) in
    let focused1 :=
      if focusTab && bool_decide (newIndex < length c1) then Some newIndex
      else focused st in
    let lazy :=
      match r1 !! newIndex with
      | Some p => needsLazyLoad p
      | None => false
      end in
    let r2 := if lazy then alter markLazyLoaded newIndex r1 else r1 in
    let events1 :=
      events st ++ (if lazy then [LazyLoad newIndex] else []) ++ [TabChange newIndex] in
    (true,
     {| c := c1; r := r2; u := newIndex; isVertical := isVertical st;
        focused := focused1; events := events1;
        timeouts := timeouts st ++ [(50, FixPanel newIndex)] |}).

(** *** The handlers *)

(** The click (or hover) handler; [newIndex] is [c.index(clickedTab)]. *)
Definition onClick (newIndex : nat) (st : State) : State :=
  if bool_decide (newIndex ≠ u st) then snd (activateTab newIndex false st) else st.

Inductive Key :=
  | ArrowRight | ArrowLeft | ArrowDown | ArrowUp
  | Home | End_ | Enter | Space | OtherKey.

Definition key_eqb (a b : Key) : bool :=
  match a, b with
  | ArrowRight, ArrowRight | ArrowLeft, ArrowLeft
  | ArrowDown, ArrowDown | ArrowUp, ArrowUp
  | Home, Home | End_, End_ | Enter, Enter | Space, Space
  | OtherKey, OtherKey => true
  | _, _ => false
  end.

(** The [while] loop that steps over placeholder tabs; [fuel] is what is
    left of [tabCount - attempts]. *)
Fixpoint skipPlaceholders (tabs : list Tab) (forward : bool) (fuel : nat) (newIndex : nat)
  : nat :=
  match fuel with
  | O => newIndex
  | S fuel' =>
      if placeholderAt tabs newIndex
      then
        let tabCount := length tabs in
        skipPlaceholders tabs forward fuel'
          (if forward then (newIndex + 1) mod tabCount
           else (newIndex + tabCount - 1) mod tabCount)
      else newIndex
  end.

(** The [keydown] handler on the tab at [currentIndex].  On naturals
    [(currentIndex - 1 + tabCount) % tabCount] is written with the
    addition first. *)
Definition onKeydown (currentIndex : nat) (key : Key) (st : State) : State :=
  let tabCount := length (c st) in
  let nextKey := if isVertical st then ArrowDown else ArrowRight in
  let prevKey := if isVertical st then ArrowUp else ArrowLeft in
  let move (newIndex : nat) :=
    let forward := key_eqb key nextKey || key_eqb key End_ in
    let newIndex := skipPlaceholders (c st) forward tabCount newIndex in
    if bool_decide (newIndex ≠ currentIndex)
    then snd (activateTab newIndex true st) else st in
  if key_eqb key nextKey then move ((currentIndex + 1) mod tabCount)
  else if key_eqb key prevKey then move ((currentIndex + tabCount - 1) mod tabCount)
  else match key with
       | Home => move 0
       | End_ => move (tabCount - 1)
       | Enter | Space => snd (activateTab currentIndex false st)
       | _ => st
       end.

(** The function stored under [picanvas-activate-tab]. *)
Definition activateByIndex (index : nat) (st : State) : State :=
  if bool_decide (index < length (c st)) then snd (activateTab index false st) else st.

(** *** Initialisation *)

(** The index left in [u] by the [each] over the panels: the last panel
    of class [active], or 0. *)
Fixpoint lastActive (panels : list Panel) (index : nat) (u : nat) : nat :=
  match panels with
  | [] => u
  | p :: rest => lastActive rest (S index) (if class_active p then index else u)
  end.

Definition initTab (u index : nat) (t : Tab) : Tab :=
  {| tab_class_active := bool_decide (index = u);
     aria_selected := Some (if bool_decide (index = u) then "true" else "false");
     tab_tabindex := Some (if bool_decide (index = u) then "0" else "-1");
     aria_disabled := if isPlaceholder t then Some "true" else aria_disabled t;
     data_placeholder := data_placeholder t |}.

Definition initPanel (u index : nat) (p : Panel) : Panel :=
  {| class_active := false;
     panel_class_active := bool_decide (index = u);
     aria_hidden := if bool_decide (index ≠ u) then Some "true" else aria_hidden p;
     panel_tabindex := Some "0";
     data_lazy := data_lazy p;
     data_lazy_loaded :=
       if bool_decide (index = u) && attrIs (data_lazy p) "true"
       then Some "true" else data_lazy_loaded p;
     iframes := iframes p |}.

(** [$add.Tabs] on one container, up to the end of the set-up. *)
Definition init (tabs : list Tab) (panels : list Panel) (vertical : bool) : State :=
  let u := lastActive panels 0 0 in
  let firstLazy :=
    match panels !! u with
    | Some p => attrIs (data_lazy p) "true"
    | None => false
    end in
  {| c := imap (initTab u) tabs;
     r := imap (initPanel u) panels;
     u := u;
     isVertical := vertical;
     focused := None;
     events := [];
     timeouts :=
       [(100, FixBannersAll); (500, FixBannersAll); (1500, FixBannersAll)]
       ++ (if firstLazy then [(0, LazyLoadFirst)] else [])
       ++ [(100, ReflowFirst)] |}.

(** Everything that can happen to an initialised controller. *)
Inductive Action :=
  | Click (index : nat)
  | Keydown (index : nat) (key : Key)
  | DeepLink (index : nat).

Definition step (st : State) (a : Action) : State :=
  match a with
  | Click i => onClick i st
  | Keydown i k => onKeydown i k st
  | DeepLink i => activateByIndex i st
  end.

Definition run (st : State) (actions : list Action) : State :=
  foldl step st actions.

(** *** The banner mutation observer (contained mode) *)

(** What the observer reads of an element: the class
    [picanvas-height-locked] and two inline style properties. *)
Record Element := {
  height_locked : bool;
  style_width : string;
  style_marginLeft : string
}.

Inductive MutationRecord :=
  | AttributesMutation (attributeName : string) (target : Element)
  | ChildListMutation (addedNodes : nat) (target : Element).

(** The variables of one observer closure and the timers it owns. *)
Record Observer := {
  debounceTimer : option nat;          (* null, or the id of the timeout *)
  pendingFixes : list nat;             (* ids of scheduled fixBannerWebparts passes *)
  nextTimerId : nat
}.

(** The body of [mutations.forEach]: does this record ask for a fix? *)
Definition mutationNeedsFix (m : MutationRecord) : bool :=
  match m with
  | AttributesMutation name el =>
      String.eqb name "style"
      && negb (height_locked el)
      && ((negb (JS.falsy (style_width el)) && negb (String.eqb (style_width el) "100%"))
          || (negb (JS.falsy (style_marginLeft el))
              && negb (String.eqb (style_marginLeft el) "0px")))
  | ChildListMutation addedNodes _ => bool_decide (0 < addedNodes)
  end.

(** [clearTimeout(id)] *)
Definition clearTimeout (id : nat) (ids : list nat) : list nat :=
  filter (λ x, x ≠ id) ids.

(** The callback given to [new MutationObserver]; [layouts] is the result
    of the [querySelectorAll] for [fullWidthImageLayout] inside the panel
    at the time of the call. *)
Definition observerCallback (layouts : list Element) (mutations : list MutationRecord)
    (o : Observer) : Observer :=
  let allLocked := forallb height_locked layouts in
  if allLocked && bool_decide (0 < length layouts) then o
  else
    let needsFix := existsb mutationNeedsFix mutations in
    if needsFix then
      let pending :=
        match debounceTimer o with
        | Some id => clearTimeout id (pendingFixes o)
        | None => pendingFixes o
        end in
      {| debounceTimer := Some (nextTimerId o);
         pendingFixes := pending ++ [nextTimerId o];
         nextTimerId := S (nextTimerId o) |}
    else o.

(** One watched panel: its layout containers, its observer, and the
    number of corrective passes ([fixBannerWebparts]) run so far. *)
Record Watched := {
  layouts : list Element;
  observer : Observer;
  correctivePasses : nat
}.

(** The inline styles written on a layout container in contained mode;
    the browser reports the margin [0] as [0px]. *)
Definition containLayout (el : Element) : Element :=
  {| height_locked := height_locked el;
     style_width := "100%";
     style_marginLeft := "0px" |}.

(** [applyHeightLock]: the class is added once the container has a height. *)
Definition applyHeightLock (offsetHeight : Z) (el : Element) : Element :=
  if (0 <? offsetHeight)%Z
  then {| height_locked := true;
          style_width := style_width el;
          style_marginLeft := style_marginLeft el |}
  else el.

Inductive WatchEvent :=
  | Notify (mutations : list MutationRecord)   (* the observer is called *)
  | DebounceFires                              (* the 200 ms timeout runs *)
  | ImageLoaded (index : nat) (offsetHeight : Z).

Definition watchStep (w : Watched) (e : WatchEvent) : Watched :=
  match e with
  | Notify mutations =>
      {| layouts := layouts w;
         observer := observerCallback (layouts w) mutations (observer w);
         correctivePasses := correctivePasses w |}
  | DebounceFires =>
      match debounceTimer (observer w) with
      | Some id =>
          {| layouts := containLayout <$> layouts w;
             observer := {| debounceTimer := None;
                            pendingFixes := clearTimeout id (pendingFixes (observer w));
                            nextTimerId := nextTimerId (observer w) |};
             correctivePasses := S (correctivePasses w) |}
      | None => w
      end
  | ImageLoaded index offsetHeight =>
      {| layouts := alter (applyHeightLock offsetHeight) index (layouts w);
         observer := observer w;
         correctivePasses := correctivePasses w |}
  end.

End AddTabs.


(** ** ContentRenderer: the remaining string functions *)

Module RendererMore.
Import JS ContentRenderer.
Local Open Scope string_scope.

(** *** The allow list *)

Definition isDomainAllowed (domain : string) (additionalDomains : list string) : bool :=
  let allAllowed := (DEFAULT_TRUSTED_DOMAINS ++ additionalDomains)%list in
  let cleanDomain := toLowerCase (stripWww domain) in
  existsb (domainMatches cleanDomain) allAllowed.

Definition getDefaultTrustedDomains : list string := DEFAULT_TRUSTED_DOMAINS.

Definition getAllowedDomains (additionalDomains : list string) : list string :=
  (DEFAULT_TRUSTED_DOMAINS ++ additionalDomains)%list.

(** *** External files *)

Inductive FileType := html_type | markdown_type | unknown_type.

(** [fileUrl.split('?')[0]] *)
Definition beforeQuery (s : string) : string :=
  takeWhile (fun c => negb (Ascii.eqb c "?"%char)) s.

Definition detectFileType (fileUrl : string) : FileType :=
  if falsy fileUrl then unknown_type
  else
    let cleanUrl := toLowerCase (beforeQuery fileUrl) in
    if endsWith cleanUrl ".html" || endsWith cleanUrl ".htm" then html_type
    else if endsWith cleanUrl ".md" || endsWith cleanUrl ".markdown" then markdown_type
    else unknown_type.

Section FileContent.

Variable marked_parse : string -> MarkedOptions -> Completion string.
Variable DOMPurify_sanitize : string -> SanitizeConfig -> Completion string.

(** Whatever is not ['markdown'] goes to the HTML pipeline. *)
Definition renderFileContent (content : JSValue) (fileType : FileType)
  : Completion IRenderResult :=
  if emptyOrNotString content then Normal (htmlOnly "")
  else
    match fileType with
    | markdown_type => renderMarkdown marked_parse DOMPurify_sanitize content
    | _ => renderHtml DOMPurify_sanitize content
    end.

End FileContent.

(** [message || fallback] for an optional string. *)
Definition orDefault (message : option string) (fallback : string) : string :=
  match message with
  | Some m => if falsy m then fallback else m
  | None => fallback
  end.

Definition renderFileLoading (message : option string) : IRenderResult :=
  let loadingMsg := orDefault message "Loading content..." in
  htmlOnly ("
        <div " ++ attr "class" "picanvas-file-container picanvas-file-loading" ++ ">
          <div " ++ attr "class" "picanvas-file-loading-spinner" ++ "></div>
          <div " ++ attr "class" "picanvas-file-loading-text" ++ ">" ++ encodeHtml loadingMsg ++ "</div>
        </div>
      ").

Definition renderFileError (error : string) : IRenderResult :=
  htmlOnly ("
        <div " ++ attr "class" "picanvas-file-container picanvas-file-error" ++ ">
          <div " ++ attr "class" "picanvas-file-error-icon" ++ ">‚ö†Ô∏è</div>
          <div " ++ attr "class" "picanvas-file-error-text" ++ ">" ++ encodeHtml error ++ "</div>
        </div>
      ").

(** *** Feeds: states and layouts *)

Definition renderRssLoading (message : option string) : IRenderResult :=
  let loadingMsg := orDefault message "Loading feed..." in
  htmlOnly ("
        <div " ++ attr "class" "picanvas-rss-container picanvas-rss-loading" ++ ">
          <div " ++ attr "class" "picanvas-rss-loading-spinner" ++ "></div>
          <div " ++ attr "class" "picanvas-rss-loading-text" ++ ">" ++ encodeHtml loadingMsg ++ "</div>
        </div>
      ").

Definition renderRssError (error : string) : IRenderResult :=
  htmlOnly ("
        <div " ++ attr "class" "picanvas-rss-container picanvas-rss-error" ++ ">
          <div " ++ attr "class" "picanvas-rss-error-icon" ++ ">‚ö†Ô∏è</div>
          <div " ++ attr "class" "picanvas-rss-error-text" ++ ">" ++ encodeHtml error ++ "</div>
        </div>
      ").

Inductive Layout := list_layout | cards_layout | compact_layout.

Definition layoutName (l : Layout) : string :=
  match l with
  | list_layout => "list"
  | cards_layout => "cards"
  | compact_layout => "compact"
  end.

(** The two fields of [IRssDisplayConfig] that [renderRss] itself reads,
    next to the fields the layouts read. *)
Record IRssFeedConfig := {
  display : IRssDisplayConfig;
  layout : Layout;
  maxItems : option Z
}.

(** [items.slice(0, n)]: a negative [n] counts from the end. *)
Definition slice0 {A} (n : Z) (items : list A) : list A :=
  if (n <? 0)%Z then firstn (length items - Z.to_nat (- n)) items
  else firstn (Z.to_nat n) items.

Definition emptyFeedNotice : string :=
  "
          <div " ++ attr "class" "picanvas-rss-container picanvas-rss-empty" ++ ">
            <div " ++ attr "class" "picanvas-rss-empty-text" ++ ">No items to display</div>
          </div>
        ".

Section FeedLayouts.

Variable getDate getMonth getFullYear : Z -> Z.

(** The arrow function mapped over the items by [renderRssCards]. *)
Definition renderRssCard (now : Z) (config : IRssDisplayConfig) (item : IRssRenderItem)
  : string :=
  let thumbnail :=
    match thumbnail item with
    | Some t =>
        if showImage config && negb (falsy t)
        then "<div " ++ attr "class" "picanvas-rss-card-image" ++ "><img "
             ++ attr "src" (encodeHtml t) ++ " " ++ attr "alt" "" ++ " "
             ++ attr "loading" "lazy" ++ " /></div>"
        else "<div " ++ attr "class" "picanvas-rss-card-image picanvas-rss-no-image" ++ "></div>"
    | None => "<div " ++ attr "class" "picanvas-rss-card-image picanvas-rss-no-image" ++ "></div>"
    end in
  let date :=
    if showDate config
    then "<span " ++ attr "class" "picanvas-rss-date" ++ ">"
         ++ formatRssDate getDate getMonth getFullYear now
              (publishedDate item) (dateFormat config) ++ "</span>"
    else "" in
  let description :=
    if showDescription config && negb (falsy (description item))
    then "<div " ++ attr "class" "picanvas-rss-description" ++ ">"
         ++ encodeHtml (truncateRssText (description item) (descriptionLimit config))
         ++ "</div>"
    else "" in
  "
        <article " ++ attr "class" "picanvas-rss-card" ++ ">
          " ++ thumbnail ++ "
          <div " ++ attr "class" "picanvas-rss-card-content" ++ ">
            <a " ++ attr "href" (encodeHtml (link item)) ++ " "
                 ++ attr "target" (linkTarget config) ++ " "
                 ++ attr "rel" "noopener noreferrer" ++ " "
                 ++ attr "class" "picanvas-rss-title" ++ ">
              " ++ encodeHtml (title item) ++ "
            </a>
            " ++ date ++ "
            " ++ description ++ "
          </div>
        </article>
      ".

Definition renderRssCards (now : Z) (items : list IRssRenderItem) (config : IRssDisplayConfig)
  : string :=
  "<div " ++ attr "class" "picanvas-rss-cards-grid" ++ ">"
  ++ String.concat "" (map (renderRssCard now config) items) ++ "</div>".

(** The arrow function mapped over the items by [renderRssCompact]. *)
Definition renderRssCompactItem (now : Z) (config : IRssDisplayConfig)
    (item : IRssRenderItem) : string :=
  let date :=
    if showDate config
    then "<span " ++ attr "class" "picanvas-rss-date" ++ ">"
         ++ formatRssDate getDate getMonth getFullYear now
              (publishedDate item) (dateFormat config) ++ "</span>"
    else "" in
  "
        <article " ++ attr "class" "picanvas-rss-compact-item" ++ ">
          <a " ++ attr "href" (encodeHtml (link item)) ++ " "
               ++ attr "target" (linkTarget config) ++ " "
               ++ attr "rel" "noopener noreferrer" ++ " "
               ++ attr "class" "picanvas-rss-title" ++ ">
            " ++ encodeHtml (title item) ++ "
          </a>
          " ++ date ++ "
        </article>
      ".

Definition renderRssCompact (now : Z) (items : list IRssRenderItem)
    (config : IRssDisplayConfig) : string :=
  String.concat "" (map (renderRssCompactItem now config) items).

(** [renderRss(items, config)]; [items] is [None] for [null] or
    [undefined]. *)
Definition renderRss (now : Z) (items : option (list IRssRenderItem))
    (config : IRssFeedConfig) : IRenderResult :=
  match items with
  | None | Some [] => htmlOnly emptyFeedNotice
  | Some items =>
      let displayItems :=
        match maxItems config with
        | Some n => if (n =? 0)%Z then items else slice0 n items
        | None => items
        end in
      let itemsHtml :=
        match layout config with
        | cards_layout =>
            renderRssCards now displayItems (display config)
        | compact_layout =>
            renderRssCompact now displayItems (display config)
        | list_layout =>
            renderRssList getDate getMonth getFullYear now displayItems (display config)
        end in
      htmlOnly ("
        <div " ++ attr "class" ("picanvas-rss-container picanvas-rss-" ++ layoutName (layout config)) ++ ">
          " ++ itemsHtml ++ "
        </div>
      ")
  end.

End FeedLayouts.

(** *** Diagrams *)

Section Mermaid.

(** The platform's [encodeURIComponent], [btoa], [atob] and
    [decodeURIComponent]; each may throw. *)
Variable encodeURIComponent btoa atob decodeURIComponent : string -> Completion string.

Definition encodeForAttribute (str : string) : string :=
  if falsy str then ""
  else
    match (let! escaped := encodeURIComponent str in btoa escaped) with
    | Normal encoded => encoded
    | Throw _ => encodeHtml str
    end.

Definition decodeFromAttribute (str : string) : string :=
  if falsy str then ""
  else
    match (let! raw := atob str in decodeURIComponent raw) with
    | Normal decoded => decoded
    | Throw _ => str
    end.

(** [prepareMermaid(content, elementId)]; [now] is [Date.now()]. *)
Definition prepareMermaid (now : Z) (content : JSValue) (elementId : string)
  : IRenderResult :=
  match content with
  | JSString content =>
      if falsy content then htmlOnly ""
      else
        let encodedContent := encodeForAttribute content in
        let safeId := makeCssSafeId now elementId in
        {| html := "
      <div " ++ attr "class" "picanvas-mermaid-container" ++ "
           " ++ attr "data-mermaid-id" safeId ++ "
           " ++ attr "data-mermaid-content" encodedContent ++ ">
        <div " ++ attr "class" "mermaid" ++ " " ++ attr "id" safeId ++ ">
          " ++ encodeHtml content ++ "
        </div>
      </div>
    ";
           requiresPostRender := Some true;
           postRenderType := Some mermaid |}
  | _ => htmlOnly ""
  end.

End Mermaid.

End RendererMore.

(** ** AddTabs: lookup of a tab by its label *)

Module TabsMore.
Import JS.
Local Open Scope string_scope.

(** [s.replace(/\s+/g, '-')]: every maximal run of white space becomes
    one hyphen.  [prev] tells that the character before [s] was white
    space of the run already replaced. *)
Fixpoint dashFrom (prev : bool) (s : string) : string :=
  match s with
  | EmptyString => EmptyString
  | String c s' =>
      if isWhiteSpace c
      then (if prev then dashFrom true s' else String hyphen (dashFrom true s'))
      else String c (dashFrom false s')
  end.

Definition dashSpaces (s : string) : string := dashFrom false s.

(** What is compared for a tab, from its text content. *)
Definition tabKey (text : string) : string := dashSpaces (toLowerCase (trim text)).

(** What is compared for the label that is looked for. *)
Definition labelKey (labelText : string) : string := dashSpaces (toLowerCase labelText).

(** The [each] over the tabs, from position [index] on; [return false]
    stops at the first match. *)
Fixpoint findFrom (texts : list string) (index : Z) (labelText : string) : Z :=
  match texts with
  | [] => (-1)%Z
  | text :: rest =>
      if String.eqb (tabKey text) (labelKey labelText) then index
      else findFrom rest (index + 1)%Z labelText
  end.

(** The function stored under [picanvas-find-tab]; [texts] are the text
    contents of the tabs, in order. *)
Definition findTab (texts : list string) (labelText : string) : Z :=
  findFrom texts 0%Z labelText.

End TabsMore.

(** * The viewport pass that follows an activation

    Fifty milliseconds after [activateTab] the panel is gone over once
    more: [fixViewportEscapeStyles] resets the margins of the elements
    whose inline style escapes the viewport, and an observer of the
    panel's [style] attributes, disconnected 2000 ms later, calls it
    again. *)

Module ViewportFix.
Import JS AddTabs.
Local Open Scope string_scope.
Local Open Scope list_scope.












End ViewportFix.

(** * The properties, as the specification words them *)

Module Claims.
Import JS ContentRenderer.
Local Open Scope string_scope.

(** The pattern of the specification, [^[A-Za-z_-][A-Za-z0-9_-]*$]. *)
Definition cssIdPattern (s : string) : bool :=
  match s with
  | EmptyString => false
  | String c s' =>
      (isLetter c || Ascii.eqb c "_"%char || isHyphen c) && sforall isIdChar s'
  end.

(** No two hyphens in a row. *)
Fixpoint noDoubleHyphen (s : string) : bool :=
  match s with
  | String c ((String d _) as s') =>
      negb (isHyphen c && isHyphen d) && noDoubleHyphen s'
  | _ => true
  end.

(** The last character, if any, is not a hyphen. *)
Fixpoint noTrailingHyphen (s : string) : bool :=
  match s with
  | EmptyString => true
  | String c EmptyString => negb (isHyphen c)
  | String _ s' => noTrailingHyphen s'
  end.

(** The characters a safe CSS length is made of: digits, the dot,
    letters and the percent sign.  None of them can end a declaration or
    an attribute value. *)
Definition safeCssChar (c : ascii) : bool :=
  isDigitOrDot c || isLetter c || Ascii.eqb c "%"%char.

(** Every ampersand starts one of the five entities [encodeHtml] writes. *)
Fixpoint entitiesWhole (s : string) : bool :=
  match s with
  | EmptyString => true
  | String c s' =>
      (if Ascii.eqb c "&"%char
       then existsb (fun e => String.prefix e s') ["amp;"; "lt;"; "gt;"; "quot;"; "#39;"]
       else true)
      && entitiesWhole s'
  end.

(** The five replacements of [encodeHtml] without its guard on the empty
    string. *)
Definition replaceFive (s : string) : string :=
  replaceAll "'"%char "&#39;"
    (replaceAll dqc "&quot;"
      (replaceAll ">"%char "&gt;"
        (replaceAll "<"%char "&lt;"
          (replaceAll "&"%char "&amp;" s)))).

(** The first, respectively last, character satisfies [p]. *)
Definition headIs (p : ascii -> bool) (s : string) : bool :=
  match s with
  | String c _ => p c
  | EmptyString => false
  end.

Fixpoint lastIs (p : ascii -> bool) (s : string) : bool :=
  match s with
  | EmptyString => false
  | String c EmptyString => p c
  | String _ s' => lastIs p s'
  end.

(** Embed allow-list, in the words of the specification: the hostname
    equals an allow-listed entry or is a proper subdomain of one. *)
Definition allowedAsWorded (hostname : string) (allowList : list string) : bool :=
  existsb (fun entry => String.eqb hostname entry || endsWith hostname ("." ++ entry))
          allowList.

(** Feed truncation, in the words of the specification: at most [limit]
    characters are returned unchanged; otherwise the text is cut at the
    limit, trailing white space is trimmed and an ellipsis is appended. *)
Definition truncateAsWorded (text : string) (limit : Z) : string :=
  if (Z.of_nat (String.length text) <=? limit)%Z then text
  else dropWhileEnd isWhiteSpace (substring0 limit text) ++ "...".

(** Relative dates, in the words of the specification, on the age in
    milliseconds; [absolute] is the absolute rendering. *)
Definition minute : Z := 60000.
Definition hour : Z := 60 * minute.
Definition day : Z := 24 * hour.

Definition relativeAsWorded (age : Z) (absolute : string) : string :=
  if (age <? minute)%Z then "Just now"
  else if (age <? 60 * minute)%Z then toString (age / minute) ++ "m ago"
  else if (age <? 24 * hour)%Z then toString (age / hour) ++ "h ago"
  else if (age / day =? 1)%Z then "Yesterday"
  else if (age <? 7 * day)%Z then toString (age / day) ++ "d ago"
  else if (age <? 30 * day)%Z then toString (age / (7 * day)) ++ "w ago"
  else absolute.

End Claims.

Module TabClaims.
Import AddTabs ViewportFix.
Local Open Scope string_scope.
Local Open Scope list_scope.

(** Exactly one panel is active and the ARIA state agrees with it: the
    tab at the active index is selected and focusable, every other tab is
    not; the panels other than the active one, and only they, carry
    [aria-hidden="true"]; the active classes sit on the same pair. *)
Definition ariaConsistent (st : State) : Prop :=
  u st < length (c st)
  ∧ length (r st) = length (c st)
  ∧ (∀ i t, c st !! i = Some t →
       aria_selected t = Some (if bool_decide (i = u st) then "true" else "false")
       ∧ tab_tabindex t = Some (if bool_decide (i = u st) then "0" else "-1")
       ∧ tab_class_active t = bool_decide (i = u st))
  ∧ (∀ i p, r st !! i = Some p →
       aria_hidden p = (if bool_decide (i = u st) then None else Some "true")
       ∧ panel_class_active p = bool_decide (i = u st)).


(** A tab and a panel as plain markup gives them: no attribute set. *)
Definition plainTab : Tab :=
  {| tab_class_active := false; aria_selected := None; tab_tabindex := None;
     aria_disabled := None; data_placeholder := None |}.

Definition placeholderTab : Tab :=
  {| tab_class_active := false; aria_selected := None; tab_tabindex := None;
     aria_disabled := None; data_placeholder := Some "true" |}.

Definition plainPanel : Panel :=
  {| class_active := false; panel_class_active := false; aria_hidden := None;
     panel_tabindex := None; data_lazy := None; data_lazy_loaded := None;
     iframes := [] |}.



Definition lockedLayout : Element :=
  {| height_locked := true; style_width := "100%"; style_marginLeft := "0px" |}.

Definition idleObserver : Observer :=
  {| debounceTimer := None; pendingFixes := []; nextTimerId := 1 |}.





End TabClaims.

Module MoreClaims.
Import JS ContentRenderer RendererMore AddTabs.
Local Open Scope string_scope.

(** The characters that open or close a tag or an attribute value. *)
Definition markupChar (c : ascii) : bool :=
  Ascii.eqb c "<"%char || Ascii.eqb c ">"%char || Ascii.eqb c dqc || Ascii.eqb c "'"%char.

(** The characters [encodeHtml] replaces. *)
Definition specialChar (c : ascii) : bool := markupChar c || Ascii.eqb c "&"%char.

Fixpoint countChar (c : ascii) (s : string) : nat :=
  match s with
  | EmptyString => 0
  | String x s' => (if Ascii.eqb x c then 1 else 0) + countChar c s'
  end.

(** Reading back the five entities, as an HTML parser does; [skip]
    counts the characters of an entity name still to be passed over. *)
Fixpoint decodeFrom (skip : nat) (s : string) : string :=
  match s with
  | EmptyString => EmptyString
  | String c s' =>
      match skip with
      | S k => decodeFrom k s'
      | O =>
          if Ascii.eqb c "&"%char then
            if String.prefix "amp;" s' then String "&"%char (decodeFrom 4 s')
            else if String.prefix "lt;" s' then String "<"%char (decodeFrom 3 s')
            else if String.prefix "gt;" s' then String ">"%char (decodeFrom 3 s')
            else if String.prefix "quot;" s' then String dqc (decodeFrom 5 s')
            else if String.prefix "#39;" s' then String "'"%char (decodeFrom 4 s')
            else String c (decodeFrom 0 s')
          else String c (decodeFrom 0 s')
      end
  end.

Definition decodeEntities (s : string) : string := decodeFrom 0 s.

(** Any character but the question mark. *)
Definition notQuery (c : ascii) : bool := negb (Ascii.eqb c "?"%char).

(** The characters of a rendered date. *)
Definition dateChar (c : ascii) : bool :=
  isDigit c || isLetter c || Ascii.eqb c " "%char || Ascii.eqb c "/"%char || isHyphen c.

(** What decides which optional blocks of a feed item are written: is
    there an author, a description, a thumbnail. *)
Definition itemShape (item : IRssRenderItem) : bool * bool * bool :=
  (falsy (author item), falsy (description item),
   match thumbnail item with Some t => falsy t | None => true end).

(** A feed configuration with another item limit. *)
Definition withMaxItems (config : IRssFeedConfig) (limit : option Z) : IRssFeedConfig :=
  {| display := display config; layout := layout config; maxItems := limit |}.

(** The panels a lazy-load notification was sent for, oldest first. *)
Definition lazyLoads (events : list Event) : list nat :=
  omap (fun e => match e with LazyLoad i => Some i | TabChange _ => None end) events.

(** The indices of the tab-change notifications, oldest first. *)
Definition tabChanges (events : list Event) : list nat :=
  omap (fun e => match e with TabChange i => Some i | LazyLoad _ => None end) events.

(** How the panels of [st] stand to those of the state [st0] the run
    started from: a panel's lazy attributes and iframes are as at the
    start until its lazy-load notification is sent, and loaded with its
    deferred iframes promoted from then on. *)
Definition lazyTracked (st0 st : State) : Prop :=
  NoDup (lazyLoads (events st))
  /\ length (r st) = length (r st0)
  /\ (forall i, i ∈ lazyLoads (events st) -> i < length (r st0))
  /\ (forall i p0, r st0 !! i = Some p0 ->
      exists p, r st !! i = Some p /\ data_lazy p = data_lazy p0 /\
        if bool_decide (i ∈ lazyLoads (events st))
        then needsLazyLoad p0 = true
             /\ data_lazy_loaded p = Some "true"
             /\ iframes p = promoteIframe <$> iframes p0
        else data_lazy_loaded p = data_lazy_loaded p0 /\ iframes p = iframes p0).

(** The observer's own timeout is the only corrective pass scheduled. *)
Definition onePending (o : Observer) : Prop :=
  pendingFixes o = match debounceTimer o with Some id => [id] | None => [] end.

Definition isFire (e : WatchEvent) : bool :=
  match e with DebounceFires => true | _ => false end.

(** The key that moves forward or backward along the strip. *)
Definition arrowKey (vertical forward : bool) : Key :=
  match vertical, forward with
  | true, true => ArrowDown
  | true, false => ArrowUp
  | false, true => ArrowRight
  | false, false => ArrowLeft
  end.

(** The index [k] tabs away from [i] on a strip of [n] tabs, going round. *)
Definition stepsFrom (n : nat) (forward : bool) (i k : nat) : nat :=
  if forward then (i + k) mod n else (i + (n - k)) mod n.

(** What the key handler does once it has settled on a target. *)
Definition moveTo (target currentIndex : nat) (st : State) : State :=
  if bool_decide (target ≠ currentIndex) then snd (activateTab target true st) else st.

Definition isNotify (e : WatchEvent) : bool :=
  match e with Notify _ => true | _ => false end.

Definition pendingCount (o : Observer) : nat :=
  match debounceTimer o with Some _ => 1 | None => 0 end.

(** A letter or an underscore: what an identifier may start with besides
    a hyphen. *)
Definition isIdStart (c : ascii) : bool := isLetter c || Ascii.eqb c "_"%char.

End MoreClaims.

(** * Properties of the content renderer *)

Module RendererProps.
Import JS ContentRenderer Claims.
Local Open Scope string_scope.

(** ** Strings *)

Lemma append_empty_r (s : string) : s ++ "" = s.
Proof. induction s as [|a s IH]; simpl; [reflexivity | now rewrite IH]. Qed.

Lemma append_assoc (a b d : string) : (a ++ b) ++ d = a ++ (b ++ d).
Proof. induction a as [|x a IH]; simpl; [reflexivity | now rewrite IH]. Qed.

Lemma length_append (a b : string) :
  String.length (a ++ b) = (String.length a + String.length b)%nat.
Proof. induction a as [|x a IH]; simpl; [reflexivity | now rewrite IH]. Qed.

Lemma sforall_append p (a b : string) :
  sforall p (a ++ b) = sforall p a && sforall p b.
Proof.
  induction a as [|x a IH]; simpl; [reflexivity|].
  rewrite IH. now rewrite andb_assoc.
Qed.

Lemma prefix_append (p b : string) : String.prefix p (p ++ b) = true.
Proof.
  induction p as [|x p IH]; simpl.
  - now destruct b.
  - destruct (ascii_dec x x) as [_|ne]; [exact IH | now destruct ne].
Qed.

Lemma includes_prefix (p s : string) : String.prefix p s = true -> includes p s = true.
Proof. intros H. destruct s; simpl in *; now rewrite H. Qed.

Lemma includes_append (a p b : string) : includes p (a ++ p ++ b) = true.
Proof.
  induction a as [|x a IH].
  - change ("" ++ p ++ b) with (p ++ b). apply includes_prefix, prefix_append.
  - simpl. rewrite IH. apply orb_true_r.
Qed.

Lemma includes_skip (a p s : string) : includes p s = true -> includes p (a ++ s) = true.
Proof.
  intros H. induction a as [|x a IH]; [exact H|].
  simpl. rewrite IH. apply orb_true_r.
Qed.

(** Walk down a concatenation to the part that is looked for. *)
Ltac find_part :=
  first [ apply includes_prefix; apply prefix_append
        | apply includes_skip; find_part ].

Lemma take_drop_while p (s : string) : takeWhile p s ++ dropWhile p s = s.
Proof.
  induction s as [|x s IH]; simpl; [reflexivity|].
  destruct (p x); simpl; [now rewrite IH | reflexivity].
Qed.

Lemma sforall_takeWhile p (s : string) : sforall p (takeWhile p s) = true.
Proof.
  induction s as [|x s IH]; simpl; [reflexivity|].
  destruct (p x) eqn:E; simpl; [now rewrite E | reflexivity].
Qed.

Lemma sforall_impl (p q : ascii -> bool) (s : string) :
  (forall x, p x = true -> q x = true) -> sforall p s = true -> sforall q s = true.
Proof.
  intros H. induction s as [|x s IH]; simpl; [reflexivity|].
  intros [Hx Hs]%andb_prop. now rewrite (H _ Hx), IH.
Qed.

Lemma falsy_true (s : string) : falsy s = true -> s = "".
Proof. now destruct s. Qed.

Lemma falsy_false (s : string) : falsy s = false -> s <> "".
Proof. now destruct s. Qed.

Lemma dropWhileEnd_split p (s : string) :
  exists trail, s = dropWhileEnd p s ++ trail /\ sforall p trail = true.
Proof.
  induction s as [|a s (trail & Hs & Ht)]; [exists ""; now split|].
  simpl. destruct (dropWhileEnd p s) as [|b r] eqn:E.
  - destruct (p a) eqn:Ha.
    + exists (String a s). split; [reflexivity|].
      simpl. rewrite Ha. simpl in Hs. now rewrite Hs.
    + exists trail. split; [|exact Ht]. simpl. simpl in Hs. now rewrite <- Hs.
  - exists trail. split; [|exact Ht].
    change (String a (String b r) ++ trail) with (String a (String b r ++ trail)).
    now rewrite <- Hs.
Qed.

Lemma lastIs_dropWhileEnd p (s : string) : lastIs p (dropWhileEnd p s) = false.
Proof.
  induction s as [|a s IH]; [reflexivity|].
  simpl. destruct (dropWhileEnd p s) as [|b r] eqn:E.
  - destruct (p a) eqn:Ha; [reflexivity|]. simpl. exact Ha.
  - exact IH.
Qed.

Lemma headIs_dropWhile p (s : string) : headIs p (dropWhile p s) = false.
Proof.
  induction s as [|a s IH]; [reflexivity|].
  simpl. destruct (p a) eqn:Ha; [exact IH|]. simpl. exact Ha.
Qed.

Lemma headIs_dropWhileEnd p (s : string) :
  headIs p s = false -> headIs p (dropWhileEnd p s) = false.
Proof.
  destruct s as [|a s]; [reflexivity|].
  simpl. intros Ha. destruct (dropWhileEnd p s); [|exact Ha].
  rewrite Ha. exact Ha.
Qed.

(** ** [makeCssSafeId] *)

(** The example of the specification. *)
Lemma makeCssSafeId_example (now : Z) :
  makeCssSafeId now "id=5/weird char" = "id-5-weird-char"
  /\ cssIdPattern "id-5-weird-char" = true
  /\ noDoubleHyphen "id-5-weird-char" = true
  /\ noTrailingHyphen "id-5-weird-char" = true.
Proof. repeat split. Qed.

Lemma isHyphen_eq (c : ascii) : isHyphen c = true -> c = hyphen.
Proof. apply Ascii.eqb_eq. Qed.

Lemma noDoubleHyphen_cons (c : ascii) (s : string) :
  noDoubleHyphen (String c s)
  = negb (isHyphen c && headIs isHyphen s) && noDoubleHyphen s.
Proof. destruct s; cbn; [now rewrite andb_false_r | reflexivity]. Qed.

Lemma noTrailingHyphen_lastIs (s : string) :
  noTrailingHyphen s = negb (lastIs isHyphen s).
Proof.
  induction s as [|c s IH]; [reflexivity|].
  destruct s; [reflexivity | exact IH].
Qed.

Lemma sforall_replaced (s : string) :
  sforall isIdChar (smap (fun c => if isIdChar c then c else hyphen) s) = true.
Proof.
  induction s as [|c s IH]; [reflexivity|].
  cbn [smap sforall]. rewrite IH.
  destruct (isIdChar c) eqn:E; [now rewrite E | reflexivity].
Qed.

Lemma sforall_collapseFrom p (prev : bool) (s : string) :
  sforall p s = true -> sforall p (collapseFrom prev s) = true.
Proof.
  revert prev. induction s as [|c s IH]; intros prev; [reflexivity|].
  cbn [sforall collapseFrom]. intros [Hc Hs]%andb_prop.
  destruct (isHyphen c) eqn:E.
  - destruct prev; [now apply IH|].
    cbn [sforall]. apply isHyphen_eq in E. rewrite <- E, Hc. now apply IH.
  - cbn [sforall]. rewrite Hc. now apply IH.
Qed.

Lemma collapseFrom_runs (prev : bool) (s : string) :
  noDoubleHyphen (collapseFrom prev s) = true
  /\ (prev = true -> headIs isHyphen (collapseFrom prev s) = false).
Proof.
  revert prev. induction s as [|c s IH]; intros prev; [now split|].
  cbn [collapseFrom]. destruct (isHyphen c) eqn:E.
  - destruct prev.
    + apply IH.
    + split; [|discriminate].
      rewrite noDoubleHyphen_cons.
      destruct (IH true) as [Hn Hh]. now rewrite Hn, Hh, andb_false_r.
  - split; [|intros _; exact E].
    rewrite noDoubleHyphen_cons, E. apply (IH false).
Qed.

Lemma sforall_dropWhile p q (s : string) :
  sforall p s = true -> sforall p (dropWhile q s) = true.
Proof.
  induction s as [|c s IH]; [reflexivity|].
  cbn [dropWhile]. intros H. destruct (q c); [|exact H].
  apply andb_prop in H as [_ H]. now apply IH.
Qed.

Lemma sforall_dropWhileEnd p q (s : string) :
  sforall p s = true -> sforall p (dropWhileEnd q s) = true.
Proof.
  intros H. destruct (dropWhileEnd_split q s) as (trail & Hs & _).
  rewrite Hs, sforall_append in H. now apply andb_prop in H as [H _].
Qed.

Lemma noDoubleHyphen_dropWhile q (s : string) :
  noDoubleHyphen s = true -> noDoubleHyphen (dropWhile q s) = true.
Proof.
  induction s as [|c s IH]; [reflexivity|].
  cbn [dropWhile]. intros H. destruct (q c); [|exact H].
  rewrite noDoubleHyphen_cons in H. apply andb_prop in H as [_ H]. now apply IH.
Qed.

Lemma noDoubleHyphen_prefix (a b : string) :
  noDoubleHyphen (a ++ b) = true -> noDoubleHyphen a = true.
Proof.
  induction a as [|c a IH]; [reflexivity|].
  change (String c a ++ b) with (String c (a ++ b)).
  rewrite !noDoubleHyphen_cons. intros [Hc Hs]%andb_prop.
  rewrite (IH Hs), andb_true_r.
  destruct a; [now rewrite andb_false_r | exact Hc].
Qed.

Lemma noDoubleHyphen_dropWhileEnd q (s : string) :
  noDoubleHyphen s = true -> noDoubleHyphen (dropWhileEnd q s) = true.
Proof.
  intros H. destruct (dropWhileEnd_split q s) as (trail & Hs & _).
  rewrite Hs in H. now apply noDoubleHyphen_prefix in H.
Qed.

Lemma sforall_string_of_uint (d : Decimal.uint) :
  sforall isDigit (NilEmpty.string_of_uint d) = true.
Proof. induction d; cbn; auto. Qed.

Lemma toString_digits (n : Z) : (0 <= n)%Z -> sforall isDigit (toString n) = true.
Proof.
  intros H. unfold toString. destruct n as [|p|p]; [reflexivity| |lia].
  apply sforall_string_of_uint.
Qed.

Lemma toString_nonempty (n : Z) : (0 <= n)%Z -> toString n <> "".
Proof.
  intros H. unfold toString. destruct n as [|p|p]; [discriminate| |lia].
  cbn. pose proof (Unsigned.to_uint_nonnil p) as Hp.
  destruct (Pos.to_uint p); [congruence|..]; discriminate.
Qed.

(** The fallback identifier [mermaid-<time>] has the full shape. *)
Lemma fallback_shape (now : Z) :
  (0 <= now)%Z ->
  let id := "mermaid-" ++ toString now in
  cssIdPattern id = true /\ noDoubleHyphen id = true
  /\ headIs isHyphen id = false /\ lastIs isHyphen id = false.
Proof.
  intros H. cbv zeta. pose proof (toString_digits now H) as Hd.
  assert (Hnh : sforall (fun c => negb (isHyphen c)) (toString now) = true).
  { apply (sforall_impl isDigit); [|exact Hd].
    intros [[] [] [] [] [] [] [] []]; vm_compute; congruence. }
  assert (Hid : sforall isIdChar (toString now) = true).
  { apply (sforall_impl isDigit); [|exact Hd].
    intros c Hc. unfold isIdChar. rewrite Hc. now rewrite orb_true_r. }
  assert (Hrun : forall s, sforall (fun c => negb (isHyphen c)) s = true ->
                 noDoubleHyphen s = true /\ lastIs isHyphen s = false
                 /\ headIs isHyphen s = false).
  { induction s as [|c s IHs]; [now repeat split|].
    cbn [sforall]. intros [Hc Hs]%andb_prop. apply negb_true_iff in Hc.
    destruct (IHs Hs) as (Hn & Hl & Hh).
    rewrite noDoubleHyphen_cons, Hc, Hn. repeat split; [|exact Hc].
    destruct s; [exact Hc | exact Hl]. }
  destruct (Hrun _ Hnh) as (Hn & Hl & Hh).
  repeat split.
  - cbn. exact Hid.
  - cbn -[toString]. destruct (toString now) as [|c t] eqn:E; [reflexivity|].
    cbn [headIs] in Hh. now rewrite Hh, Hn.
  - cbn -[toString]. pose proof (toString_nonempty now H) as Hne.
    destruct (toString now) as [|c t] eqn:E; [congruence | exact Hl].
Qed.

(** What [makeCssSafeId] achieves on every input: a non-empty identifier
    made of letters, digits, underscores and hyphens, with no two hyphens
    in a row and no hyphen at either end.  Only the first character can
    still be a digit. *)
Lemma makeCssSafeId_shape (now : Z) (str : string) :
  (0 <= now)%Z ->
  let id := makeCssSafeId now str in
  id <> ""
  /\ sforall isIdChar id = true
  /\ noDoubleHyphen id = true
  /\ noTrailingHyphen id = true
  /\ headIs isHyphen id = false
  /\ (cssIdPattern id = true \/ headIs isDigit id = true).
Proof.
  intros Hnow. cbv zeta.
  assert (Hgoal : forall id,
            id <> "" -> sforall isIdChar id = true -> noDoubleHyphen id = true ->
            lastIs isHyphen id = false -> headIs isHyphen id = false ->
            id <> ""
            /\ sforall isIdChar id = true
            /\ noDoubleHyphen id = true
            /\ noTrailingHyphen id = true
            /\ headIs isHyphen id = false
            /\ (cssIdPattern id = true \/ headIs isDigit id = true)).
  { intros id Hne Hid Hn Hl Hh. rewrite noTrailingHyphen_lastIs, Hl.
    repeat split; auto.
    destruct id as [|c t]; [congruence|].
    cbn [sforall] in Hid. apply andb_prop in Hid as [Hc Ht].
    cbn [cssIdPattern headIs]. rewrite Ht, andb_true_r.
    unfold isIdChar in Hc. destruct (isDigit c); [now right|left].
    now rewrite orb_false_r in Hc. }
  assert (Hfb : let id := "mermaid-" ++ toString now in
            id <> ""
            /\ sforall isIdChar id = true
            /\ noDoubleHyphen id = true
            /\ noTrailingHyphen id = true
            /\ headIs isHyphen id = false
            /\ (cssIdPattern id = true \/ headIs isDigit id = true)).
  { destruct (fallback_shape now Hnow) as (Hp & Hn & Hh & Hl).
    cbv zeta. apply Hgoal; auto. }
  unfold makeCssSafeId. destruct (falsy str); [exact Hfb|].
  set (replaced := smap _ str).
  set (prefixed := if startsWithDigit replaced then "m-" ++ replaced else replaced).
  assert (Hpre : sforall isIdChar prefixed = true).
  { subst prefixed. destruct (startsWithDigit replaced);
      [cbn [append sforall]|]; apply sforall_replaced. }
  destruct (falsy (stripHyphens (collapseHyphens prefixed))) eqn:E; [exact Hfb|].
  apply Hgoal.
  - now apply falsy_false.
  - apply sforall_dropWhileEnd, sforall_dropWhile, sforall_collapseFrom, Hpre.
  - apply noDoubleHyphen_dropWhileEnd, noDoubleHyphen_dropWhile, collapseFrom_runs.
  - apply lastIs_dropWhileEnd.
  - apply headIs_dropWhileEnd, headIs_dropWhile.
Qed.

Lemma dropWhile_id p (s : string) : headIs p s = false -> dropWhile p s = s.
Proof. destruct s as [|c s]; [reflexivity|]. cbn. now intros ->. Qed.

Lemma dropWhileEnd_id p (s : string) : lastIs p s = false -> dropWhileEnd p s = s.
Proof.
  induction s as [|c s IH]; [reflexivity|].
  cbn [dropWhileEnd]. destruct s as [|d s].
  - cbn. now intros ->.
  - intros H. rewrite (IH H). reflexivity.
Qed.

Lemma collapseFrom_id (prev : bool) (s : string) :
  noDoubleHyphen s = true -> (prev = true -> headIs isHyphen s = false) ->
  collapseFrom prev s = s.
Proof.
  revert prev. induction s as [|c s IH]; intros prev Hn Hh; [reflexivity|].
  rewrite noDoubleHyphen_cons in Hn. apply andb_prop in Hn as [Hc Hs].
  cbn [collapseFrom]. destruct (isHyphen c) eqn:E.
  - destruct prev; [cbn in Hh; rewrite Hh in E by reflexivity; discriminate|].
    apply isHyphen_eq in E. subst c. f_equal. apply IH; [exact Hs|].
    intros _. cbn in Hc. now apply negb_true_iff in Hc.
  - f_equal. apply IH; [exact Hs | discriminate].
Qed.

Lemma smap_id (f : ascii -> ascii) p (s : string) :
  (forall c, p c = true -> f c = c) -> sforall p s = true -> smap f s = s.
Proof.
  intros Hf. induction s as [|c s IH]; [reflexivity|].
  cbn. intros [Hc Hs]%andb_prop. now rewrite (Hf c Hc), IH.
Qed.

(** On an output that does match the pattern the function is idempotent. *)
Lemma makeCssSafeId_idempotent_on_valid (now : Z) (str : string) :
  (0 <= now)%Z ->
  cssIdPattern (makeCssSafeId now str) = true ->
  makeCssSafeId now (makeCssSafeId now str) = makeCssSafeId now str.
Proof.
  intros Hnow Hpat.
  destruct (makeCssSafeId_shape now str Hnow) as (Hne & Hid & Hn & Ht & Hh & _).
  rewrite noTrailingHyphen_lastIs in Ht. apply negb_true_iff in Ht.
  set (id := makeCssSafeId now str) in *.
  destruct id as [|c t] eqn:E; [congruence|].
  unfold makeCssSafeId at 1. cbn [falsy].
  rewrite (smap_id _ isIdChar) by (auto; intros x Hx; now rewrite Hx).
  assert (Hd : startsWithDigit (String c t) = false).
  { cbn [cssIdPattern] in Hpat. apply andb_prop in Hpat as [Hc _].
    cbn [startsWithDigit]. clear -Hc.
    destruct c as [[] [] [] [] [] [] [] []]; vm_compute in *; congruence. }
  rewrite Hd. unfold collapseHyphens, stripHyphens.
  rewrite collapseFrom_id by (auto; discriminate).
  rewrite dropWhile_id by exact Hh.
  rewrite dropWhileEnd_id by exact Ht.
  reflexivity.
Qed.

(** C4.  The digit test of [makeCssSafeId] runs before the leading hyphens
    are removed, so an identifier whose first kept character is a digit
    behind a replaced or hyphen prefix comes out starting with that digit:
    ["-5"] gives ["5"], which the pattern [^[A-Za-z_-][A-Za-z0-9_-]*$]
    rejects, and a second application gives ["m-5"], so the function is
    not idempotent there either. *)
Theorem makeCssSafeId_digit_behind_hyphen (now : Z) :
  makeCssSafeId now "-5" = "5"
  /\ cssIdPattern (makeCssSafeId now "-5") = false
  /\ makeCssSafeId now (makeCssSafeId now "-5") = "m-5"
  /\ makeCssSafeId now "=5" = "5".
Proof. repeat split. Qed.

(** ** [sanitizeCssValue] *)

Lemma safeCssChar_fold (c : ascii) :
  safeCssChar (foldCase c) = true -> safeCssChar c = true.
Proof.
  destruct c as [[] [] [] [] [] [] [] []]; vm_compute; intros H; exact H.
Qed.

Lemma sforall_smap_fold (s : string) :
  sforall safeCssChar (smap foldCase s) = true -> sforall safeCssChar s = true.
Proof.
  induction s as [|x s IH]; simpl; [reflexivity|].
  intros [Hx Hs]%andb_prop. now rewrite (safeCssChar_fold _ Hx), IH.
Qed.

Lemma isCssUnit_chars (s : string) : isCssUnit s = true -> sforall safeCssChar s = true.
Proof.
  unfold isCssUnit. intros H. apply sforall_smap_fold.
  apply existsb_exists in H as (unit & Hin & Heq).
  apply String.eqb_eq in Heq. rewrite Heq.
  simpl in Hin. repeat (destruct Hin as [<-|Hin]; [reflexivity|]). destruct Hin.
Qed.

(** A value that passes the pattern holds safe characters only. *)
Lemma safePattern_chars (s : string) : safePattern s = true -> sforall safeCssChar s = true.
Proof.
  unfold safePattern. intros [_ Hrest]%andb_prop.
  rewrite <- (take_drop_while isDigitOrDot s), sforall_append.
  apply andb_true_intro; split.
  - apply (sforall_impl isDigitOrDot); [|apply sforall_takeWhile].
    intros x Hx. unfold safeCssChar. now rewrite Hx.
  - apply orb_prop in Hrest as [He|Hu].
    + apply falsy_true in He. now rewrite He.
    + now apply isCssUnit_chars.
Qed.

Lemma takeWhile_all p (s : string) : sforall p s = true -> takeWhile p s = s.
Proof.
  induction s as [|x s IH]; simpl; [reflexivity|].
  intros [Hx Hs]%andb_prop. now rewrite Hx, IH.
Qed.

Lemma dropWhile_all p (s : string) : sforall p s = true -> dropWhile p s = "".
Proof.
  induction s as [|x s IH]; simpl; [reflexivity|].
  intros [Hx Hs]%andb_prop. now rewrite Hx, IH.
Qed.

(** A bare integer already passes the pattern: the branch of
    [sanitizeCssValue] that appends [px] is never taken. *)
Lemma allDigits_safePattern (s : string) : allDigits s = true -> safePattern s = true.
Proof.
  unfold allDigits, safePattern. intros [Hne Hd]%andb_prop.
  assert (Hdd : sforall isDigitOrDot s = true).
  { apply (sforall_impl isDigit); [|exact Hd].
    intros x Hx. unfold isDigitOrDot. now rewrite Hx. }
  now rewrite (takeWhile_all _ _ Hdd), (dropWhile_all _ _ Hdd), Hne.
Qed.

Lemma sanitizeCssValue_cases (value : string) :
  sanitizeCssValue value =
    if falsy value then ""
    else if safePattern (trim value) then trim value else "400px".
Proof.
  unfold sanitizeCssValue.
  destruct (falsy value); [reflexivity|].
  destruct (safePattern (trim value)) eqn:Hs; [reflexivity|].
  destruct (allDigits (trim value)) eqn:Hd; [|reflexivity].
  apply allDigits_safePattern in Hd. congruence.
Qed.

Lemma sanitizeCssValue_bare_integer : sanitizeCssValue "400" = "400".
Proof. reflexivity. Qed.

(** ** [renderEmbed] *)

(** The three shapes of the result. *)
Lemma renderEmbed_shape (parseURL : string -> option URL) (config : IEmbedConfig) :
  let out := html (renderEmbed parseURL config) in
  let sanitizedUrl :=
    sanitizeEmbedUrl parseURL (url config) (default [] (additionalDomains config)) in
  (falsy (url config) = true /\ out = noUrlNotice)
  \/ (falsy (url config) = false /\ falsy sanitizedUrl = true /\ out = blockedNotice)
  \/ (falsy (url config) = false /\ falsy sanitizedUrl = false /\
      exists after,
        out = "
      <div " ++ attr "class" "picanvas-embed-container" ++ " "
             ++ attr "style" ("height: " ++ sanitizeCssValue (default "400px" (height config)))
             ++ ">
        <iframe
          " ++ attr (if default false (defer config) then "data-src" else "src")
                    (encodeHtml sanitizedUrl) ++ after).
Proof.
  cbv zeta. unfold renderEmbed.
  destruct (falsy (url config)); [left; now split|right].
  destruct (falsy (sanitizeEmbedUrl _ _ _)); [left; now split|right].
  split; [reflexivity|]. split; [reflexivity|].
  destruct (default false (defer config)); eexists; simpl html; reflexivity.
Qed.

(** The frame, whole: the address attribute is the only part of the
    [iframe] tag that depends on the configuration. *)
Lemma renderEmbed_frame (parseURL : string -> option URL) (config : IEmbedConfig) :
  let sanitizedUrl :=
    sanitizeEmbedUrl parseURL (url config) (default [] (additionalDomains config)) in
  falsy (url config) = false -> falsy sanitizedUrl = false ->
  html (renderEmbed parseURL config) = "
      <div " ++ attr "class" "picanvas-embed-container" ++ " "
             ++ attr "style" ("height: " ++ sanitizeCssValue (default "400px" (height config))) ++ ">
        <iframe
          " ++ attr (if default false (defer config) then "data-src" else "src")
                    (encodeHtml sanitizedUrl) ++ "
          " ++ attr "style" "width: 100%; height: 100%; border: none;" ++ "
          " ++ attr "loading" "lazy" ++ "
          allowfullscreen
          " ++ attr "referrerpolicy" "no-referrer-when-downgrade" ++ "
          " ++ attr "sandbox" "allow-scripts allow-same-origin allow-forms allow-popups allow-presentation" ++ "
        ></iframe>
      </div>
    ".
Proof.
  cbv zeta. intros Hu Hs. unfold renderEmbed. rewrite Hu, Hs.
  destruct (default false (defer config)); reflexivity.
Qed.



(** [endsWith] against concatenation. *)
Lemma drop_length_append (x p : string) : drop (String.length x) (x ++ p) = p.
Proof. induction x as [|a x IH]; simpl; [now destruct p | exact IH]. Qed.

Lemma drop_is_suffix (n : nat) (s : string) : exists x, s = x ++ drop n s.
Proof.
  revert s. induction n as [|n IH]; intros s.
  - exists "". reflexivity.
  - destruct s as [|a s]; [exists ""; reflexivity|].
    destruct (IH s) as [x Hx]. exists (String a x). simpl. now rewrite <- Hx.
Qed.

Lemma endsWith_iff (s p : string) : endsWith s p = true <-> exists x, s = x ++ p.
Proof.
  unfold endsWith. split.
  - intros [_ H]%andb_prop. apply String.eqb_eq in H.
    destruct (drop_is_suffix (String.length s - String.length p) s) as [x Hx].
    exists x. now rewrite <- H.
  - intros [x ->]. rewrite length_append.
    apply andb_true_intro; split.
    + apply Nat.leb_le. lia.
    + replace (String.length x + String.length p - String.length p)%nat
        with (String.length x) by lia.
      rewrite drop_length_append. apply String.eqb_refl.
Qed.

(** What the test inside [some] decides. *)
Lemma domainMatches_iff (domain allowed : string) :
  domainMatches domain allowed = true <->
  (domain = toLowerCase (stripWww allowed)
   \/ exists sub, domain = sub ++ "." ++ toLowerCase (stripWww allowed)).
Proof.
  unfold domainMatches. rewrite orb_true_iff, String.eqb_eq, endsWith_iff.
  reflexivity.
Qed.

(** [sanitizeEmbedUrl] returns the address itself or the empty string. *)
Lemma sanitizeEmbedUrl_passes (parseURL : string -> option URL)
    (address : string) (additional : list string) :
  address <> "" ->
  (falsy (sanitizeEmbedUrl parseURL address additional) = false <->
   exists parsed entry,
     parseURL address = Some parsed
     /\ protocol parsed = "https:"
     /\ In entry (DEFAULT_TRUSTED_DOMAINS ++ additional)%list
     /\ domainMatches (toLowerCase (stripWww (hostname parsed))) entry = true).
Proof.
  intros Hne. unfold sanitizeEmbedUrl.
  destruct (parseURL address) as [parsed|]; cycle 1.
  { split; [discriminate|]. intros (? & ? & ? & _). discriminate. }
  cbv zeta.
  set (ok := existsb _ _).
  destruct (String.eqb (protocol parsed) "https:") eqn:Hp; cbn [negb]; cycle 1.
  { split; [discriminate|]. intros (q & ? & [= <-] & Hq & _).
    apply String.eqb_neq in Hp. contradiction. }
  apply String.eqb_eq in Hp.
  destruct ok eqn:Hex; subst ok; cbn [negb].
  - split; [|intros _; destruct address; [congruence|reflexivity]].
    intros _. apply existsb_exists in Hex as (entry & Hin & Hm).
    exists parsed, entry. auto.
  - split; [discriminate|]. intros (q & entry & [= <-] & _ & Hin & Hm).
    assert (existsb (domainMatches (toLowerCase (stripWww (hostname parsed))))
              (DEFAULT_TRUSTED_DOMAINS ++ additional)%list = true) as Hyes
      by (apply existsb_exists; eauto).
    congruence.
Qed.

Lemma sanitizeEmbedUrl_result (parseURL : string -> option URL)
    (address : string) (additional : list string) :
  falsy (sanitizeEmbedUrl parseURL address additional) = false ->
  sanitizeEmbedUrl parseURL address additional = address.
Proof.
  unfold sanitizeEmbedUrl.
  destruct (parseURL address); [|discriminate].
  destruct (negb _); [discriminate|].
  destruct (negb _); [discriminate|reflexivity].
Qed.

(** C1 (as amended).  [renderEmbed] writes an [iframe] exactly when the
    address is not empty, parses, has protocol [https:], and its hostname,
    with a leading [www.] removed and in lower case, equals an entry of the
    allow list (built-in domains followed by [additionalDomains]) treated
    the same way, or ends with a dot followed by such an entry.  In every
    other case the result is one of the two notices, which hold no
    [iframe]; when the frame is written, the result is the frame template
    whose [iframe] tag carries the escaped address in [src] and has no
    [data-src], or carries it in [data-src] and has no [src] when [defer]
    is set. *)
Theorem renderEmbed_frame_iff_allowed (parseURL : string -> option URL) (config : IEmbedConfig) :
  let out := html (renderEmbed parseURL config) in
  let allowList :=
    (DEFAULT_TRUSTED_DOMAINS ++ default [] (additionalDomains config))%list in
  let allowed :=
    url config <> ""
    /\ exists parsed entry,
         parseURL (url config) = Some parsed
         /\ protocol parsed = "https:"
         /\ In entry allowList
         /\ (toLowerCase (stripWww (hostname parsed)) = toLowerCase (stripWww entry)
             \/ exists sub,
                  toLowerCase (stripWww (hostname parsed))
                  = sub ++ "." ++ toLowerCase (stripWww entry)) in
  (includes "<iframe" out = true <-> allowed)
  /\ (includes "<iframe" out = false <-> out = noUrlNotice \/ out = blockedNotice)
  /\ (includes "<iframe" out = true ->
      out = "
      <div " ++ attr "class" "picanvas-embed-container" ++ " "
             ++ attr "style" ("height: " ++ sanitizeCssValue (default "400px" (height config))) ++ ">
        <iframe
          " ++ attr (if default false (defer config) then "data-src" else "src")
                    (encodeHtml (url config)) ++ "
          " ++ attr "style" "width: 100%; height: 100%; border: none;" ++ "
          " ++ attr "loading" "lazy" ++ "
          allowfullscreen
          " ++ attr "referrerpolicy" "no-referrer-when-downgrade" ++ "
          " ++ attr "sandbox" "allow-scripts allow-same-origin allow-forms allow-popups allow-presentation" ++ "
        ></iframe>
      </div>
    ").
Proof.
  cbv zeta.
  pose proof (renderEmbed_frame parseURL config) as Hfull. cbv zeta in Hfull.
  assert (Hno : includes "<iframe" noUrlNotice = false) by reflexivity.
  assert (Hblocked : includes "<iframe" blockedNotice = false) by reflexivity.
  destruct (renderEmbed_shape parseURL config)
    as [[Hu ->]|[(Hu & Hs & ->)|(Hu & Hs & _)]].
  - apply falsy_true in Hu. rewrite Hno. repeat split; try discriminate; auto.
    intros [Hne _]. contradiction.
  - apply falsy_false in Hu. rewrite Hblocked. repeat split; try discriminate; auto.
    intros [_ (parsed & entry & Hparse & Hproto & Hin & Hm)].
    apply domainMatches_iff in Hm.
    assert (falsy (sanitizeEmbedUrl parseURL (url config)
                     (default [] (additionalDomains config))) = false) as Hyes
      by (apply sanitizeEmbedUrl_passes; eauto 8).
    congruence.
  - pose proof (falsy_false _ Hu) as Hne.
    rewrite (Hfull Hu Hs), (sanitizeEmbedUrl_result _ _ _ Hs). clear Hfull.
    match goal with |- context [includes "<iframe" ?o] =>
      assert (Hframe : includes "<iframe" o = true) end.
    { do 4 apply includes_skip.
      match goal with |- includes _ (_ ++ ?rest) = true =>
        change (includes "<iframe" (">
        " ++ "<iframe" ++ "
          " ++ rest) = true) end.
      apply includes_append. }
    rewrite Hframe. split; [|split].
    + split; [|reflexivity]. intros _. split; [exact Hne|].
      apply (sanitizeEmbedUrl_passes parseURL _ (default [] (additionalDomains config))) in Hs
        as (parsed & entry & Hparse & Hproto & Hin & Hm); [|exact Hne].
      apply domainMatches_iff in Hm. eauto 8.
    + split; [discriminate|].
      intros [H|H]; exfalso; rewrite H in Hframe; congruence.
    + intros _. reflexivity.
Qed.

(** The three examples of the specification, with what the platform's
    parser returns for each address. *)
Lemma renderEmbed_examples :
  let frame parsed address :=
    includes "<iframe"
      (html (renderEmbed (fun _ => Some parsed)
               {| url := address; height := None;
                  additionalDomains := None; defer := None |})) in
  frame {| protocol := "https:"; hostname := "www.youtube.com" |}
        "https://www.youtube.com/embed/x" = true
  /\ frame {| protocol := "http:"; hostname := "youtube.com" |}
           "http://youtube.com/x" = false
  /\ frame {| protocol := "https:"; hostname := "evil.com" |}
           "https://evil.com/youtube.com" = false.
Proof. vm_compute. repeat split. Qed.

(** C1, as first stated, fails when an allow-list entry carries [www.]:
    the entry [www.example.com] lets the host [example.com] through,
    which neither equals the entry nor is a subdomain of it (nor of any
    built-in domain). *)
Lemma renderEmbed_www_entry_counterexample :
  let parseURL := fun _ : string =>
    Some {| protocol := "https:"; hostname := "example.com" |} in
  let config := {| url := "https://example.com/video"; height := None;
                   additionalDomains := Some ["www.example.com"]; defer := None |} in
  includes "<iframe" (html (renderEmbed parseURL config)) = true
  /\ allowedAsWorded "example.com"
       (DEFAULT_TRUSTED_DOMAINS ++ ["www.example.com"])%list = false.
Proof. vm_compute. split; reflexivity. Qed.

(** ** [renderMarkdown] and [renderHtml] *)

(** C7.  Whatever [marked] and [DOMPurify] do, [renderMarkdown] and
    [renderHtml] complete normally with a result: the empty-content result
    for a payload that is empty or not a string, the error fragment when
    either library throws, and the sanitizer's output otherwise. *)
Theorem render_never_throws
    (marked_parse : string -> MarkedOptions -> Completion string)
    (DOMPurify_sanitize : string -> SanitizeConfig -> Completion string)
    (content : JSValue) :
  let md := renderMarkdown marked_parse DOMPurify_sanitize content in
  let ht := renderHtml DOMPurify_sanitize content in
  (exists result, md = Normal result)
  /\ (exists result, ht = Normal result)
  /\ (emptyOrNotString content = true ->
      md = Normal (htmlOnly "") /\ ht = Normal (htmlOnly ""))
  /\ (forall s e,
        content = JSString s -> s <> "" ->
        marked_parse s markedOptions = Throw e ->
        md = Normal (htmlOnly markdownError))
  /\ (forall s rawHtml e,
        content = JSString s -> s <> "" ->
        marked_parse s markedOptions = Normal rawHtml ->
        DOMPurify_sanitize rawHtml markdownProfile = Throw e ->
        md = Normal (htmlOnly markdownError))
  /\ (forall s rawHtml sanitizedHtml,
        content = JSString s -> s <> "" ->
        marked_parse s markedOptions = Normal rawHtml ->
        DOMPurify_sanitize rawHtml markdownProfile = Normal sanitizedHtml ->
        md = Normal (htmlOnly sanitizedHtml))
  /\ (forall s e,
        content = JSString s -> s <> "" ->
        DOMPurify_sanitize s htmlProfile = Throw e ->
        ht = Normal (htmlOnly htmlError))
  /\ (forall s sanitizedHtml,
        content = JSString s -> s <> "" ->
        DOMPurify_sanitize s htmlProfile = Normal sanitizedHtml ->
        ht = Normal (htmlOnly sanitizedHtml)).
Proof.
  cbv zeta. unfold renderMarkdown, renderHtml.
  destruct content as [| |b|n|s|];
    try (repeat split; eauto; intros; discriminate).
  destruct s as [|a s].
  { repeat split; eauto; intros ? **; congruence. }
  cbn [falsy emptyOrNotString].
  repeat split.
  - destruct (marked_parse _ _) as [rawHtml|e]; cbn; [|eauto].
    destruct (DOMPurify_sanitize rawHtml _); cbn; eauto.
  - destruct (DOMPurify_sanitize _ htmlProfile); cbn; eauto.
  - discriminate.
  - discriminate.
  - intros s' e [= <-] _ H. now rewrite H.
  - intros s' rawHtml e [= <-] _ H1 H2. rewrite H1. cbn. now rewrite H2.
  - intros s' rawHtml h [= <-] _ H1 H2. rewrite H1. cbn. now rewrite H2.
  - intros s' e [= <-] _ H. now rewrite H.
  - intros s' h [= <-] _ H. now rewrite H.
Qed.

(** ** [formatRssDate] *)

Local Open Scope Z_scope.

(** A floored quotient is below [k] exactly when the dividend is below
    [k] times the divisor. *)
Lemma div_ltb (a b k : Z) : 0 < b -> (a / b <? k) = (a <? k * b).
Proof.
  intros Hb.
  destruct (Z.ltb_spec a (k * b)) as [H|H].
  - apply Z.ltb_lt. apply Z.div_lt_upper_bound; lia.
  - apply Z.ltb_ge. apply Z.div_le_lower_bound; lia.
Qed.

Lemma relativeDate_as_worded (now time : Z) (absolute : string) :
  match relativeDate now time with
  | Some text => text
  | None => absolute
  end = relativeAsWorded (now - time) absolute.
Proof.
  unfold relativeDate, relativeAsWorded, day, hour, minute.
  set (age := now - time).
  rewrite !Z.div_div by lia.
  rewrite !(div_ltb age) by lia.
  change (60 * 60000) with 3600000. change (24 * 3600000) with 86400000.
  change (60000 * 60) with 3600000. change (3600000 * 24) with 86400000.
  change (86400000 * 7) with 604800000. change (7 * 86400000) with 604800000.
  change (1 * 60000) with 60000.
  change (24 * (60 * 60000)) with 86400000.
  change (7 * (24 * (60 * 60000))) with 604800000.
  change (30 * (24 * (60 * 60000))) with 2592000000.
  change (30 * 86400000) with 2592000000.
  change (24 * 3600000) with 86400000.
  repeat match goal with |- context [if ?b then _ else _] => destruct b end;
    reflexivity.
Qed.

(** C5.  In relative mode a valid date is rendered from its age in
    milliseconds as the specification words it: [Just now] below one
    minute, minutes below one hour, floored hours below one day,
    [Yesterday] when the floored number of days is 1, days below seven
    days, floored weeks below thirty days, and the absolute month/day/year
    rendering from thirty days on. *)
Theorem formatRssDate_relative (getDate getMonth getFullYear : Z -> Z) (now time : Z) :
  let format := formatRssDate getDate getMonth getFullYear in
  format now (ValidDate time) "relative"
    = relativeAsWorded (now - time)
        (padStart2 (toString (getMonth time + 1)) ++ "/"
         ++ padStart2 (toString (getDate time)) ++ "/"
         ++ toString (getFullYear time))
  /\ format now (ValidDate (now - 30 * 1000)) "relative" = "Just now"
  /\ format now (ValidDate (now - 90 * minute)) "relative" = "1h ago"
  /\ format now (ValidDate (now - (24 * hour - minute))) "relative" = "23h ago"
  /\ format now (ValidDate (now - 48 * hour)) "relative" = "2d ago".
Proof.
  cbv zeta.
  assert (Hgen : forall t,
    formatRssDate getDate getMonth getFullYear now (ValidDate t) "relative"
    = relativeAsWorded (now - t)
        (padStart2 (toString (getMonth t + 1)) ++ "/"
         ++ padStart2 (toString (getDate t)) ++ "/" ++ toString (getFullYear t))).
  { intros t. unfold formatRssDate.
    change (String.eqb "relative" "relative") with true. cbv iota.
    rewrite <- relativeDate_as_worded. reflexivity. }
  split; [apply Hgen|].
  repeat split; rewrite Hgen.
  - replace (now - (now - 30 * 1000)) with 30000 by (unfold minute; lia). reflexivity.
  - replace (now - (now - 90 * minute)) with 5400000 by (unfold minute; lia). reflexivity.
  - replace (now - (now - (24 * hour - minute))) with 86340000
      by (unfold hour, minute; lia). reflexivity.
  - replace (now - (now - 48 * hour)) with 172800000 by (unfold hour, minute; lia).
    reflexivity.
Qed.

(** Further boundaries: one minute, one day, two days, a week, thirty days. *)
Lemma relativeAsWorded_boundaries (absolute : string) :
  relativeAsWorded (minute - 1) absolute = "Just now"
  /\ relativeAsWorded minute absolute = "1m ago"
  /\ relativeAsWorded day absolute = "Yesterday"
  /\ relativeAsWorded (2 * day - 1) absolute = "Yesterday"
  /\ relativeAsWorded (7 * day - 1) absolute = "6d ago"
  /\ relativeAsWorded (7 * day) absolute = "1w ago"
  /\ relativeAsWorded (30 * day - 1) absolute = "4w ago"
  /\ relativeAsWorded (30 * day) absolute = absolute.
Proof. repeat split. Qed.

Local Close Scope Z_scope.

(** ** [encodeHtml] *)

Lemma encodeHtml_replaceFive (s : string) : encodeHtml s = replaceFive s.
Proof. now destruct s. Qed.

Lemma replaceAll_append (c : ascii) (by_ a b : string) :
  replaceAll c by_ (a ++ b) = replaceAll c by_ a ++ replaceAll c by_ b.
Proof.
  induction a as [|x a IH]; simpl; [reflexivity|].
  now rewrite IH, append_assoc.
Qed.

Lemma replaceFive_cons (c : ascii) (s : string) :
  replaceFive (String c s) = replaceFive (String c "") ++ replaceFive s.
Proof.
  change (String c s) with (String c "" ++ s).
  unfold replaceFive. now rewrite !replaceAll_append.
Qed.

Lemma prefix_empty (s : string) : String.prefix "" s = true.
Proof. now destruct s. Qed.

(** One escaped character adds no dangling ampersand. *)
Lemma entitiesWhole_one (c : ascii) (rest : string) :
  entitiesWhole (replaceFive (String c "") ++ rest) = entitiesWhole rest.
Proof.
  destruct c as [[] [] [] [] [] [] [] []];
    match goal with
    | |- context [replaceFive ?x] =>
        let t := eval vm_compute in (replaceFive x) in change (replaceFive x) with t
    end;
    cbn [append entitiesWhole Ascii.eqb Bool.eqb existsb String.prefix andb orb];
    try reflexivity;
    repeat match goal with
           | |- context [ascii_dec ?a ?b] => destruct (ascii_dec a b); try congruence
           end;
    rewrite ?prefix_empty; reflexivity.
Qed.

(** Escaping never leaves a partial entity, whatever was cut before it. *)
Lemma entitiesWhole_encodeHtml (s : string) : entitiesWhole (encodeHtml s) = true.
Proof.
  rewrite encodeHtml_replaceFive.
  induction s as [|c s IH]; [reflexivity|].
  now rewrite replaceFive_cons, entitiesWhole_one.
Qed.

(** ** [truncateRssText] *)

Lemma substring0_split (n : nat) (s : string) :
  exists rest,
    s = String.substring 0 n s ++ rest
    /\ String.length (String.substring 0 n s) = Nat.min n (String.length s).
Proof.
  revert s. induction n as [|n IH]; intros s.
  - exists s. now destruct s.
  - destruct s as [|a s]; [exists ""; now split|].
    destruct (IH s) as (rest & Hs & Hl).
    exists rest. simpl. split; [now rewrite <- Hs | now rewrite Hl].
Qed.

(** [trim] removes white space at both ends and nothing else. *)
Lemma trim_split (s : string) :
  exists lead trail,
    s = lead ++ trim s ++ trail
    /\ sforall isWhiteSpace lead = true
    /\ sforall isWhiteSpace trail = true
    /\ headIs isWhiteSpace (trim s) = false
    /\ lastIs isWhiteSpace (trim s) = false.
Proof.
  unfold trim.
  destruct (dropWhileEnd_split isWhiteSpace (dropWhile isWhiteSpace s))
    as (trail & Hs & Ht).
  exists (takeWhile isWhiteSpace s), trail.
  split; [|split; [|split; [|split]]].
  - rewrite <- Hs. symmetry. apply take_drop_while.
  - apply sforall_takeWhile.
  - exact Ht.
  - apply headIs_dropWhileEnd, headIs_dropWhile.
  - apply lastIs_dropWhileEnd.
Qed.

(** C9 (as amended).  A description of at most [limit] characters is
    returned unchanged; a longer one is cut after exactly [limit]
    characters, white space is removed at both ends of the cut, and [...]
    is appended.  The title, the link and the author of an item are written
    whole; only the description goes through the truncation, and it is
    escaped after it, so every ampersand of the written description starts
    a complete entity. *)
Theorem truncateRssText_cuts_description
    (getDate getMonth getFullYear : Z -> Z) (now : Z)
    (config : IRssDisplayConfig) (item : IRssRenderItem)
    (text : string) (limit : Z) :
  let out := renderRssListItem getDate getMonth getFullYear now config item in
  ((Z.of_nat (String.length text) <= limit)%Z -> truncateRssText text limit = text)
  /\ ((limit < Z.of_nat (String.length text))%Z -> text <> "" ->
      exists lead core trail rest,
        text = (lead ++ core ++ trail) ++ rest
        /\ Z.of_nat (String.length (lead ++ core ++ trail)) = Z.max 0 limit
        /\ sforall isWhiteSpace lead = true
        /\ sforall isWhiteSpace trail = true
        /\ headIs isWhiteSpace core = false
        /\ lastIs isWhiteSpace core = false
        /\ truncateRssText text limit = core ++ "...")
  /\ truncateRssText "Hello world, this is long" 10 = "Hello worl..."
  /\ entitiesWhole (encodeHtml (truncateRssText text limit)) = true
  /\ includes (encodeHtml (title item)) out = true
  /\ includes (attr "href" (encodeHtml (link item))) out = true
  /\ (showAuthor config = true -> author item <> "" ->
      includes (encodeHtml (author item)) out = true)
  /\ (showDescription config = true -> description item <> "" ->
      includes (encodeHtml (truncateRssText (description item) (descriptionLimit config)))
               out = true).
Proof.
  cbv zeta. split; [|split; [|split; [|split]]].
  - intros H. unfold truncateRssText.
    apply Z.leb_le in H. rewrite H. now rewrite orb_true_r.
  - intros H Hne. unfold truncateRssText, substring0.
    apply Z.leb_gt in H. rewrite H.
    destruct text as [|a text]; [congruence|]. cbn [falsy orb].
    destruct (substring0_split (Z.to_nat limit) (String a text)) as (rest & Hs & Hl).
    destruct (trim_split (String.substring 0 (Z.to_nat limit) (String a text)))
      as (lead & trail & Hc & Hlead & Htrail & Hhead & Hlast).
    exists lead, (trim (String.substring 0 (Z.to_nat limit) (String a text))), trail, rest.
    rewrite <- Hc. repeat split; auto.
    rewrite Hl. apply Z.leb_gt in H. lia.
  - reflexivity.
  - apply entitiesWhole_encodeHtml.
  - unfold renderRssListItem. repeat split.
    + find_part.
    + find_part.
    + intros Hshow Hne. rewrite Hshow.
      destruct (author item) as [|a rest] eqn:E; [congruence|].
      cbn [falsy negb andb]. rewrite orb_true_r.
      rewrite !append_assoc. find_part.
    + intros Hshow Hne. rewrite Hshow.
      destruct (description item) as [|a rest] eqn:E; [congruence|].
      cbn [falsy negb andb].
      rewrite !append_assoc. find_part.
Qed.

(** C9, as first stated, fails on a description that begins with white
    space: [trim] also removes the white space in front of the cut. *)
Lemma truncateRssText_leading_space_counterexample :
  truncateRssText "  abcdef" 4 = "ab..."
  /\ truncateAsWorded "  abcdef" 4 = "  ab..."
  /\ String.eqb (truncateRssText "  abcdef" 4) (truncateAsWorded "  abcdef" 4) = false.
Proof. repeat split. Qed.


End RendererProps.

(** * Properties of the tab controller *)

Module TabsProps.
Import AddTabs ViewportFix TabClaims.
Local Open Scope string_scope.
Local Open Scope list_scope.

(** ** [activateTab] *)

(** A placeholder tab is refused: the call answers [false] and nothing
    changes. *)
Lemma activateTab_placeholder (i : nat) (focusTab : bool) (st : State) :
  placeholderAt (c st) i = true -> activateTab i focusTab st = (false, st).
Proof. intros H. unfold activateTab. now rewrite H. Qed.

(** The click handler does nothing on the active tab. *)
Lemma onClick_active (st : State) : onClick (u st) st = st.
Proof. unfold onClick. rewrite bool_decide_false; [reflexivity | intros H; now apply H]. Qed.




(** ** Initialisation *)



(** ** The handlers *)








(** ** Activation of the index that is already active *)

(** Re-activating the active tab of a consistent state, when that tab is
    no placeholder and its panel has no lazy load pending, rewrites every
    attribute with the value it already has. *)
Lemma reactivation_keeps_elements (focusTab : bool) (st : State) :
  ariaConsistent st ->
  placeholderAt (c st) (u st) = false ->
  (∀ p, r st !! u st = Some p → needsLazyLoad p = false) ->
  let st' := snd (activateTab (u st) focusTab st) in
  c st' = c st ∧ r st' = r st ∧ u st' = u st
  ∧ events st' = events st ++ [TabChange (u st)].
Proof.
  intros (Hu & Hlen & Htabs & Hpanels) Hp Hlazy. cbv zeta.
  unfold activateTab. rewrite Hp. cbn [snd c r u events].
  assert (Hr1 : alter showPanel (u st) (hidePanel <$> r st) = r st).
  { apply list_eq. intros j. rewrite list_lookup_alter, !list_lookup_fmap.
    destruct (r st !! j) as [p|] eqn:Hj; cycle 1.
    { destruct (decide (u st = j)) as [Heq|]; [now rewrite Heq, Hj | reflexivity]. }
    destruct (Hpanels j p Hj) as [Hh Hc].
    destruct (decide (u st = j)) as [Heq|Hne].
    - rewrite Heq, Hj. cbn. f_equal.
      rewrite bool_decide_true in Hh, Hc by congruence.
      destruct p; cbn in *. now subst.
    - cbn. f_equal.
      rewrite bool_decide_false in Hh, Hc by congruence.
      destruct p; cbn in *. now subst. }
  assert (Hc1 : alter selectTab (u st) (deselectTab <$> c st) = c st).
  { apply list_eq. intros j. rewrite list_lookup_alter, !list_lookup_fmap.
    destruct (c st !! j) as [t|] eqn:Hj; cycle 1.
    { destruct (decide (u st = j)) as [Heq|]; [now rewrite Heq, Hj | reflexivity]. }
    destruct (Htabs j t Hj) as (Hs & Ht & Hc).
    destruct (decide (u st = j)) as [Heq|Hne].
    - rewrite Heq, Hj. cbn. f_equal.
      rewrite bool_decide_true in Hs, Ht, Hc by congruence.
      destruct t; cbn in *. now subst.
    - cbn. f_equal.
      rewrite bool_decide_false in Hs, Ht, Hc by congruence.
      destruct t; cbn in *. now subst. }
  rewrite Hr1, Hc1.
  destruct (r st !! u st) as [p|] eqn:Hp0.
  - rewrite (Hlazy p eq_refl). auto.
  - auto.
Qed.

(** C3.  [activateTab] itself does not test for the active index; only the
    click handler does.  With two plain tabs and tab 0 active, pressing
    Enter on tab 0, or calling the deep-link entry point with 0, leaves
    tabs, panels and active index as they were but sends another
    tab-change notification each time, while a click on tab 0 does
    nothing.  A placeholder tab is refused with [false] and no change. *)
Theorem reactivation_sends_tab_change :
  let st := init [plainTab; plainTab] [plainPanel; plainPanel] false in
  let afterEnter := onKeydown 0 Enter st in
  let afterSpace := onKeydown 0 Space st in
  let afterDeepLink := activateByIndex 0 st in
  u st = 0 ∧ events st = []
  ∧ (c afterEnter = c st ∧ r afterEnter = r st ∧ u afterEnter = u st)
  ∧ events afterEnter = [TabChange 0]
  ∧ events afterSpace = [TabChange 0]
  ∧ events afterDeepLink = [TabChange 0]
  ∧ events (onKeydown 0 Enter afterEnter) = [TabChange 0; TabChange 0]
  ∧ onClick 0 st = st
  ∧ (let withPlaceholder :=
       init [plainTab; placeholderTab] [plainPanel; plainPanel] false in
     activateTab 1 false withPlaceholder = (false, withPlaceholder)).
Proof. vm_compute. repeat split. Qed.

(** ** The banner observer *)

(** A style change on a height-locked element never asks for a fix. *)
Lemma locked_target_needs_no_fix (name : string) (el : Element) :
  height_locked el = true -> mutationNeedsFix (AttributesMutation name el) = false.
Proof.
  intros H. unfold mutationNeedsFix. rewrite H.
  now rewrite andb_false_r.
Qed.

(** With every layout container locked the callback returns at once. *)
Lemma observerCallback_locked (els : list Element) (mutations : list MutationRecord)
    (o : Observer) :
  els ≠ [] -> forallb height_locked els = true ->
  observerCallback els mutations o = o.
Proof.
  intros Hne Hall. unfold observerCallback. rewrite Hall.
  rewrite bool_decide_true; [reflexivity|].
  destruct els; [congruence | cbn; lia].
Qed.

(** The guard of the banner observer: once every watched layout
    container of a panel carries the height lock, any number of
    notifications to this observer leaves the watched panel as it is: no
    timeout is set or cleared and no corrective pass is scheduled. *)
Theorem locked_panel_ignores_mutations
    (w : Watched) (batches : list (list MutationRecord)) :
  layouts w ≠ [] ->
  forallb height_locked (layouts w) = true ->
  foldl watchStep w (Notify <$> batches) = w.
Proof.
  intros Hne Hall. induction batches as [|mutations batches IH]; [reflexivity|].
  cbn [fmap list_fmap foldl watchStep].
  rewrite (observerCallback_locked _ _ _ Hne Hall).
  destruct w; exact IH.
Qed.

Lemma locked_panel_ignores_mutations_witness :
  let w := {| layouts := [lockedLayout; lockedLayout];
              observer := idleObserver; correctivePasses := 4 |} in
  let hostReset :=
    {| height_locked := true; style_width := "100vw";
       style_marginLeft := "calc(-50vw + 50%)" |} in
  foldl watchStep w
    (Notify <$> [[AttributesMutation "style" hostReset];
                 [ChildListMutation 2 hostReset; AttributesMutation "style" hostReset]])
  = w.
Proof.
  apply (locked_panel_ignores_mutations
           {| layouts := [lockedLayout; lockedLayout];
              observer := idleObserver; correctivePasses := 4 |}).
  - discriminate.
  - reflexivity.
Defined.

(** Before the lock the same notifications do schedule a pass, and a
    burst of them leaves a single pending timeout. *)
Lemma unlocked_panel_schedules_one_pass :
  let unlocked :=
    {| height_locked := false; style_width := "100vw";
       style_marginLeft := "calc(-50vw + 50%)" |} in
  let w := {| layouts := [unlocked]; observer := idleObserver; correctivePasses := 0 |} in
  let w' := foldl watchStep w
              (Notify <$> [[AttributesMutation "style" unlocked];
                           [AttributesMutation "style" unlocked]]) in
  pendingFixes (observer w') = [2]
  ∧ correctivePasses (watchStep w' DebounceFires) = 1.
Proof. vm_compute. split; reflexivity. Qed.

(** ** The observer of the activation pass *)





End TabsProps.

(** * Further properties of the content renderer *)

Module RendererMoreProps.
Import JS ContentRenderer RendererMore Claims MoreClaims RendererProps.
Local Open Scope string_scope.

(** ** [encodeHtml] *)

Lemma replaceFive_append (a b : string) :
  replaceFive (a ++ b) = replaceFive a ++ replaceFive b.
Proof. unfold replaceFive. now rewrite !replaceAll_append. Qed.

Lemma inert_one (c : ascii) :
  sforall (fun x => negb (markupChar x)) (replaceFive (String c "")) = true.
Proof. destruct c as [[] [] [] [] [] [] [] []]; vm_compute; reflexivity. Qed.

Lemma plain_one (c : ascii) :
  specialChar c = false -> replaceFive (String c "") = String c "".
Proof. destruct c as [[] [] [] [] [] [] [] []]; vm_compute; congruence. Qed.

Lemma decode_one (c : ascii) (rest : string) :
  decodeFrom 0 (replaceFive (String c "") ++ rest) = String c (decodeFrom 0 rest).
Proof.
  destruct c as [[] [] [] [] [] [] [] []];
    match goal with
    | |- context [replaceFive ?x] =>
        let t := eval vm_compute in (replaceFive x) in change (replaceFive x) with t
    end;
    cbn [append decodeFrom Ascii.eqb Bool.eqb String.prefix];
    try reflexivity;
    repeat match goal with
           | |- context [ascii_dec ?a ?b] => destruct (ascii_dec a b); try congruence
           end;
    rewrite ?prefix_empty; reflexivity.
Qed.

Lemma encodeHtml_no_markup (s : string) :
  sforall (fun c => negb (markupChar c)) (encodeHtml s) = true.
Proof.
  rewrite encodeHtml_replaceFive.
  induction s as [|c s IH]; [reflexivity|].
  now rewrite replaceFive_cons, sforall_append, inert_one, IH.
Qed.

Lemma encodeHtml_plain (s : string) :
  sforall (fun c => negb (specialChar c)) s = true -> encodeHtml s = s.
Proof.
  rewrite encodeHtml_replaceFive.
  induction s as [|c s IH]; [reflexivity|].
  cbn [sforall]. intros [Hc Hs]%andb_prop. apply negb_true_iff in Hc.
  rewrite replaceFive_cons, (plain_one c Hc), (IH Hs). reflexivity.
Qed.

(** X1.  The text [encodeHtml] returns holds no angle bracket and no
    quote of either kind, and each of its ampersands starts one of the
    five entities: inserted between tags or inside a quoted attribute it
    cannot open a tag or close the attribute. *)
Theorem encodeHtml_is_inert (s : string) :
  sforall (fun c => negb (markupChar c)) (encodeHtml s) = true
  /\ entitiesWhole (encodeHtml s) = true.
Proof. split; [apply encodeHtml_no_markup | apply entitiesWhole_encodeHtml]. Qed.

(** X2.  Escaping is done character by character: the escape of a
    concatenation is the concatenation of the escapes, text without any of
    the five special characters is returned as it is, and the result is
    never shorter than the input. *)
Theorem encodeHtml_compositional (a b : string) :
  encodeHtml (a ++ b) = encodeHtml a ++ encodeHtml b
  /\ (sforall (fun c => negb (specialChar c)) a = true -> encodeHtml a = a)
  /\ String.length a <= String.length (encodeHtml a).
Proof.
  split; [|split; [apply encodeHtml_plain|]].
  - rewrite !encodeHtml_replaceFive. apply replaceFive_append.
  - rewrite encodeHtml_replaceFive.
    induction a as [|c a IH]; [apply Nat.le_refl|].
    rewrite replaceFive_cons, length_append. cbn [String.length].
    assert (1 <= String.length (replaceFive (String c ""))).
    { destruct c as [[] [] [] [] [] [] [] []]; vm_compute; lia. }
    lia.
Qed.

(** X3.  Escaping loses nothing: reading the five entities back gives the
    input again, so two different texts never have the same escape. *)
Theorem encodeHtml_lossless (s : string) :
  decodeEntities (encodeHtml s) = s
  /\ (forall t, encodeHtml s = encodeHtml t -> s = t).
Proof.
  assert (Hback : forall x, decodeEntities (encodeHtml x) = x).
  { intros x. rewrite encodeHtml_replaceFive. unfold decodeEntities.
    induction x as [|c x IH]; [reflexivity|].
    now rewrite replaceFive_cons, decode_one, IH. }
  split; [apply Hback|].
  intros t H. rewrite <- (Hback s), <- (Hback t). now rewrite H.
Qed.

(** ** The allow list *)

Lemma smap_append f (a b : string) : smap f (a ++ b) = smap f a ++ smap f b.
Proof. induction a as [|c a IH]; cbn; [reflexivity | now rewrite IH]. Qed.

Lemma domainMatches_self (entry : string) :
  domainMatches (toLowerCase (stripWww entry)) entry = true.
Proof. unfold domainMatches. now rewrite String.eqb_refl. Qed.

(** X4.  [sanitizeEmbedUrl] lets through exactly the HTTPS addresses whose
    hostname [isDomainAllowed] accepts; adding domains to the caller's
    list, before or after, never revokes a host; and every entry of the
    combined list, in whatever letter case and with or without [www.], is
    itself an allowed host. *)
Theorem isDomainAllowed_consistent (parseURL : string -> option URL)
    (address domain : string) (additional more : list string) :
  sanitizeEmbedUrl parseURL address additional
    = match parseURL address with
      | Some parsed =>
          if String.eqb (protocol parsed) "https:"
             && isDomainAllowed (hostname parsed) additional
          then address else ""
      | None => ""
      end
  /\ (isDomainAllowed domain additional = true ->
      isDomainAllowed domain (additional ++ more) = true
      /\ isDomainAllowed domain (more ++ additional) = true)
  /\ (In domain (getAllowedDomains additional) -> isDomainAllowed domain additional = true).
Proof.
  split; [|split].
  - unfold sanitizeEmbedUrl, isDomainAllowed.
    destruct (parseURL address) as [parsed|]; [|reflexivity].
    destruct (String.eqb (protocol parsed) "https:"); [|reflexivity].
    cbn [negb andb]. now destruct (existsb _ _).
  - unfold isDomainAllowed. intros H.
    apply existsb_exists in H as (entry & Hin & Hm).
    split; apply existsb_exists; exists entry; (split; [|exact Hm]);
      rewrite !in_app_iff in *; tauto.
  - unfold isDomainAllowed, getAllowedDomains. intros Hin.
    apply existsb_exists. exists domain. split; [exact Hin|].
    apply domainMatches_self.
Qed.

Lemma prefix_cons (a b : ascii) (p s : string) :
  String.prefix (String a p) (String b s)
  = if ascii_dec a b then String.prefix p s else false.
Proof. reflexivity. Qed.

Lemma prefix_iff (p s : string) : String.prefix p s = true <-> exists r, s = p ++ r.
Proof.
  split.
  - revert s. induction p as [|a p IH]; intros s H; [now exists s|].
    destruct s as [|b s]; [discriminate H|].
    rewrite prefix_cons in H. destruct (ascii_dec a b) as [<-|]; [|discriminate H].
    destruct (IH s H) as [r ->]. now exists r.
  - intros [r ->]. apply prefix_append.
Qed.

Lemma stripWww_cases (d : string) :
  (exists r, d = "www." ++ r /\ stripWww d = r)
  \/ (String.prefix "www." d = false /\ stripWww d = d).
Proof.
  unfold stripWww, startsWith.
  destruct (String.prefix "www." d) eqn:Hp; [left|right; now split].
  apply prefix_iff in Hp as [r ->]. now exists r.
Qed.

Lemma lower_with_www (d : string) :
  exists w, toLowerCase d = w ++ toLowerCase (stripWww d) /\ (w = "" \/ w = "www.").
Proof.
  destruct (stripWww_cases d) as [(r & -> & ->)|[_ ->]].
  - exists "www.". split; [reflexivity | now right].
  - exists "". split; [reflexivity | now left].
Qed.

Lemma lower_of_subdomain (x d : string) :
  exists y,
    toLowerCase (stripWww (x ++ "." ++ d)) = y ++ toLowerCase d
    /\ (y = "" \/ exists z, y = z ++ ".").
Proof.
  destruct (stripWww_cases (x ++ "." ++ d)) as [(r & Hx & ->)|[_ ->]].
  - destruct x as [|c1 [|c2 [|c3 [|c4 x]]]]; cbn [append] in Hx;
      try (exfalso; congruence).
    + injection Hx as _ _ _ <-.
      exists "". split; [reflexivity | now left].
    + injection Hx as _ _ _ _ <-.
      exists (toLowerCase x ++ "."). split; [|right; now exists (toLowerCase x)].
      unfold toLowerCase. rewrite !smap_append. now rewrite append_assoc.
  - exists (toLowerCase x ++ "."). split; [|right; now exists (toLowerCase x)].
    unfold toLowerCase. rewrite !smap_append. now rewrite append_assoc.
Qed.

Lemma domainMatches_subdomain (x d entry : string) :
  domainMatches (toLowerCase (stripWww d)) entry = true ->
  domainMatches (toLowerCase (stripWww (x ++ "." ++ d))) entry = true.
Proof.
  rewrite !domainMatches_iff.
  set (P := toLowerCase (stripWww entry)).
  destruct (lower_of_subdomain x d) as (y & -> & Hy).
  destruct (lower_with_www d) as (w & -> & Hw).
  intros [HD|[sub HD]]; rewrite HD.
  - destruct Hw as [->| ->].
    + destruct Hy as [->|[z ->]]; [now left|].
      right. exists z. cbn [append]. now rewrite append_assoc.
    + right. exists (y ++ "www"). now rewrite !append_assoc.
  - right. exists (y ++ w ++ sub). now rewrite !append_assoc.
Qed.

(** X5.  The allow list is closed under subdomains: a host that is
    allowed stays allowed with any further label put in front of it. *)
Theorem isDomainAllowed_subdomain (label domain : string) (additional : list string) :
  isDomainAllowed domain additional = true ->
  isDomainAllowed (label ++ "." ++ domain) additional = true.
Proof.
  unfold isDomainAllowed. intros H.
  apply existsb_exists in H as (entry & Hin & Hm).
  apply existsb_exists. exists entry. split; [exact Hin|].
  now apply domainMatches_subdomain.
Qed.

Lemma isDomainAllowed_subdomain_witness :
  isDomainAllowed ("embed" ++ "." ++ "www.YouTube.com") ["intranet.example"] = true.
Proof.
  apply (isDomainAllowed_subdomain "embed" "www.YouTube.com" ["intranet.example"]).
  vm_compute. reflexivity.
Defined.

(** ** External files *)

Lemma lowerChar_query (c : ascii) : notQuery (lowerChar c) = notQuery c.
Proof. destruct c as [[] [] [] [] [] [] [] []]; vm_compute; reflexivity. Qed.

Lemma lowerChar_idempotent (c : ascii) : lowerChar (lowerChar c) = lowerChar c.
Proof. destruct c as [[] [] [] [] [] [] [] []]; vm_compute; reflexivity. Qed.

Lemma toLowerCase_idempotent (s : string) : toLowerCase (toLowerCase s) = toLowerCase s.
Proof.
  unfold toLowerCase. induction s as [|c s IH]; [reflexivity|].
  cbn [smap]. now rewrite lowerChar_idempotent, IH.
Qed.

Lemma beforeQuery_lower (s : string) :
  beforeQuery (toLowerCase s) = toLowerCase (beforeQuery s).
Proof.
  unfold beforeQuery. induction s as [|c s IH]; [reflexivity|].
  cbn [toLowerCase smap takeWhile].
  change (negb (Ascii.eqb (lowerChar c) "?")) with (notQuery (lowerChar c)).
  change (negb (Ascii.eqb c "?")) with (notQuery c).
  rewrite lowerChar_query. destruct (notQuery c); [|reflexivity].
  cbn [smap]. f_equal. exact IH.
Qed.

Lemma beforeQuery_append (s query : string) :
  sforall notQuery s = true -> beforeQuery (s ++ "?" ++ query) = s.
Proof.
  unfold beforeQuery. induction s as [|c s IH]; [reflexivity|].
  cbn [sforall append takeWhile]. intros [Hc Hs]%andb_prop.
  unfold notQuery in Hc. rewrite Hc. f_equal. now apply IH.
Qed.

Lemma beforeQuery_plain (s : string) : sforall notQuery s = true -> beforeQuery s = s.
Proof. intros H. now apply takeWhile_all. Qed.

(** X6.  The detected file type depends on the part of the address before
    the first question mark only, and not on letter case; an address that
    starts with a question mark is of unknown type. *)
Theorem detectFileType_ignores_query_and_case (fileUrl query : string) :
  detectFileType (toLowerCase fileUrl) = detectFileType fileUrl
  /\ (fileUrl <> "" -> sforall notQuery fileUrl = true ->
      detectFileType (fileUrl ++ "?" ++ query) = detectFileType fileUrl)
  /\ detectFileType ("?" ++ query) = unknown_type.
Proof.
  split; [|split].
  - unfold detectFileType.
    destruct fileUrl as [|c u]; [reflexivity|]. cbn [toLowerCase smap falsy].
    change (String (lowerChar c) (smap lowerChar u)) with (toLowerCase (String c u)).
    now rewrite beforeQuery_lower, toLowerCase_idempotent.
  - intros Hne Hq. unfold detectFileType.
    destruct fileUrl as [|c u]; [congruence|]. cbn [append falsy].
    change (String c (u ++ String "?" query)) with (String c u ++ "?" ++ query).
    now rewrite (beforeQuery_append _ _ Hq), (beforeQuery_plain _ Hq).
  - reflexivity.
Qed.

(** X7.  [renderFileContent] never throws: it answers as [renderMarkdown]
    for the markdown type and as [renderHtml] for every other type, the
    unknown type included, and an empty or non-string content gives the
    empty result whatever the type. *)
Theorem renderFileContent_routes
    (marked_parse : string -> MarkedOptions -> Completion string)
    (DOMPurify_sanitize : string -> SanitizeConfig -> Completion string)
    (content : JSValue) (fileType : FileType) :
  let result := renderFileContent marked_parse DOMPurify_sanitize content fileType in
  result = match fileType with
           | markdown_type => renderMarkdown marked_parse DOMPurify_sanitize content
           | _ => renderHtml DOMPurify_sanitize content
           end
  /\ (exists r, result = Normal r)
  /\ (emptyOrNotString content = true -> result = Normal (htmlOnly "")).
Proof.
  cbv zeta. unfold renderFileContent.
  assert (Hempty : emptyOrNotString content = true ->
            renderMarkdown marked_parse DOMPurify_sanitize content = Normal (htmlOnly "")
            /\ renderHtml DOMPurify_sanitize content = Normal (htmlOnly "")).
  { destruct content as [| | | |s|]; try (intros _; now split).
    destruct s; [intros _; now split | discriminate]. }
  destruct (emptyOrNotString content) eqn:E.
  - destruct (Hempty eq_refl) as [Hm Hh].
    repeat split; eauto. destruct fileType; congruence.
  - split; [reflexivity|]. split; [|discriminate].
    destruct content as [| | | |s|]; try discriminate E.
    destruct s as [|a s]; [discriminate E|].
    destruct fileType; unfold renderMarkdown, renderHtml; cbn [falsy];
      repeat match goal with
             | |- context [marked_parse ?x ?o] => destruct (marked_parse x o); cbn
             | |- context [DOMPurify_sanitize ?x ?o] => destruct (DOMPurify_sanitize x o); cbn
             end; eauto.
Qed.

(** ** Diagrams *)

(** X8.  For a non-empty diagram source [prepareMermaid] asks for the
    post-render step and returns exactly the placeholder template: an
    outer [div] that carries the identifier in [data-mermaid-id] and the
    encoded source in [data-mermaid-content], and an inner [div] of class
    [mermaid] whose [id] is the same identifier and whose text is the
    escaped source.  That identifier is never empty and holds only
    letters, digits, underscores and hyphens, so it cannot leave its
    attribute.  An empty or non-string source gives the empty result with
    no post-render step. *)
Theorem prepareMermaid_placeholder
    (encodeURIComponent btoa : string -> Completion string)
    (now : Z) (content : JSValue) (elementId : string) :
  (0 <= now)%Z ->
  let result := prepareMermaid encodeURIComponent btoa now content elementId in
  (emptyOrNotString content = true -> result = htmlOnly "")
  /\ (forall source, content = JSString source -> source <> "" ->
      let safeId := makeCssSafeId now elementId in
      safeId <> ""
      /\ sforall isIdChar safeId = true
      /\ html result
         = "
      " ++ ("<div " ++ attr "class" "picanvas-mermaid-container" ++ "
           " ++ attr "data-mermaid-id" safeId) ++ "
           " ++ attr "data-mermaid-content"
                     (encodeForAttribute encodeURIComponent btoa source) ++ ">
        " ++ ("<div " ++ attr "class" "mermaid" ++ " " ++ attr "id" safeId ++ ">") ++ "
          " ++ encodeHtml source ++ "
        </div>
      </div>
    "
      /\ includes ("<div " ++ attr "class" "mermaid" ++ " " ++ attr "id" safeId ++ ">")
           (html result) = true
      /\ includes (encodeHtml source) (html result) = true
      /\ requiresPostRender result = Some true
      /\ postRenderType result = Some mermaid).
Proof.
  intros Hnow. cbv zeta. split.
  - destruct content as [| | | |s|]; try reflexivity.
    destruct s; [reflexivity | discriminate].
  - intros source -> Hne.
    destruct (makeCssSafeId_shape now elementId Hnow) as (Hid & Hchars & _).
    destruct source as [|a source]; [congruence|].
    assert (Hhtml : html (prepareMermaid encodeURIComponent btoa now
                            (JSString (String a source)) elementId)
                    = "
      " ++ ("<div " ++ attr "class" "picanvas-mermaid-container" ++ "
           " ++ attr "data-mermaid-id" (makeCssSafeId now elementId)) ++ "
           " ++ attr "data-mermaid-content"
                     (encodeForAttribute encodeURIComponent btoa (String a source)) ++ ">
        " ++ ("<div " ++ attr "class" "mermaid" ++ " "
                      ++ attr "id" (makeCssSafeId now elementId) ++ ">") ++ "
          " ++ encodeHtml (String a source) ++ "
        </div>
      </div>
    ").
    { unfold prepareMermaid. cbn [falsy html]. unfold attr.
      rewrite !append_assoc. reflexivity. }
    split; [exact Hid|]. split; [exact Hchars|]. split; [exact Hhtml|].
    split; [|split; [|split; reflexivity]].
    + rewrite Hhtml. find_part.
    + rewrite Hhtml. find_part.
Qed.

Lemma prepareMermaid_placeholder_witness :
  let result :=
    prepareMermaid (fun s => Normal s) (fun _ => Throw JSUndefined) 1700000000000
      (JSString "graph TD; A-->B") "tab 3/diagram" in
  includes ("<div " ++ attr "class" "mermaid" ++ " " ++ attr "id" "tab-3-diagram" ++ ">")
    (html result) = true
  /\ includes "A--&gt;B" (html result) = true.
Proof.
  pose proof (prepareMermaid_placeholder (fun s => Normal s) (fun _ => Throw JSUndefined)
                1700000000000 (JSString "graph TD; A-->B") "tab 3/diagram") as H.
  cbv zeta in H.
  destruct H as [_ H]; [vm_compute; discriminate|].
  destruct (H "graph TD; A-->B" eq_refl) as (_ & _ & _ & Hid & _); [discriminate|].
  split; [exact Hid | vm_compute; reflexivity].
Defined.

(** ** Feeds *)

Lemma firstn_exact {A} (items extra : list A) :
  firstn (length items) (items ++ extra)%list = items.
Proof.
  induction items as [|x items IH]; [now destruct extra|].
  cbn. now rewrite IH.
Qed.

(** X9.  Only the first [maxItems] items of a feed are rendered, so what
    comes after them has no influence on the result; a limit of 0, like no
    limit, renders every item; a negative limit drops that many items
    from the end; an absent or empty feed gives the empty notice. *)
Theorem renderRss_respects_maxItems
    (getDate getMonth getFullYear : Z -> Z) (now : Z)
    (items extra : list IRssRenderItem) (config : IRssFeedConfig) (limit : Z) :
  let render := renderRss getDate getMonth getFullYear now in
  (items <> [] -> (0 < limit)%Z -> Z.of_nat (length items) = limit ->
   render (Some (items ++ extra)%list) (withMaxItems config (Some limit))
   = render (Some items) (withMaxItems config None))
  /\ (items <> [] -> (limit < 0)%Z -> Z.of_nat (length extra) = (- limit)%Z ->
      render (Some (items ++ extra)%list) (withMaxItems config (Some limit))
      = render (Some items) (withMaxItems config None))
  /\ render (Some items) (withMaxItems config (Some 0%Z))
     = render (Some items) (withMaxItems config None)
  /\ render None config = htmlOnly emptyFeedNotice
  /\ render (Some []) config = htmlOnly emptyFeedNotice.
Proof.
  cbv zeta. split; [|split; [|split; [|split]]]; try reflexivity.
  - intros Hne Hpos Hlen. unfold renderRss, withMaxItems. cbn [maxItems layout display].
    destruct items as [|x items]; [congruence|].
    cbn [app]. change (x :: (items ++ extra)%list) with ((x :: items) ++ extra)%list.
    assert (Hz : (limit =? 0)%Z = false) by (apply Z.eqb_neq; lia). rewrite Hz.
    unfold slice0. assert (Hn : (limit <? 0)%Z = false) by (apply Z.ltb_ge; lia).
    rewrite Hn. replace (Z.to_nat limit) with (length (x :: items)) by lia.
    now rewrite firstn_exact.
  - intros Hne Hneg Hlen. unfold renderRss, withMaxItems. cbn [maxItems layout display].
    destruct items as [|x items]; [congruence|].
    cbn [app]. change (x :: (items ++ extra)%list) with ((x :: items) ++ extra)%list.
    assert (Hz : (limit =? 0)%Z = false) by (apply Z.eqb_neq; lia). rewrite Hz.
    unfold slice0. assert (Hn : (limit <? 0)%Z = true) by (apply Z.ltb_lt; lia).
    rewrite Hn.
    replace (length ((x :: items) ++ extra)%list - Z.to_nat (- limit))
      with (length (x :: items)) by (rewrite length_app; lia).
    now rewrite firstn_exact.
Qed.

Lemma dateChar_digit (c : ascii) : isDigit c = true -> dateChar c = true.
Proof. intros H. unfold dateChar. now rewrite H. Qed.

Lemma toString_dateChars (n : Z) : sforall dateChar (toString n) = true.
Proof.
  unfold toString. destruct n as [|p|p]; [reflexivity| |]; cbn.
  - apply (sforall_impl isDigit); [apply dateChar_digit | apply sforall_string_of_uint].
  - apply (sforall_impl isDigit); [apply dateChar_digit | apply sforall_string_of_uint].
Qed.

Lemma padStart2_dateChars (s : string) :
  sforall dateChar s = true -> sforall dateChar (padStart2 s) = true.
Proof.
  intros H. unfold padStart2.
  destruct s as [|a [|b s]]; cbn [String.length]; [reflexivity| |exact H].
  cbn [append sforall] in *. exact H.
Qed.

Lemma dateChar_plain (c : ascii) : dateChar c = true -> negb (specialChar c) = true.
Proof. destruct c as [[] [] [] [] [] [] [] []]; vm_compute; congruence. Qed.

Lemma formatRssDate_chars (getDate getMonth getFullYear : Z -> Z)
    (now : Z) (date : DateArg) (format : string) :
  sforall dateChar (formatRssDate getDate getMonth getFullYear now date format) = true.
Proof.
  unfold formatRssDate. destruct date as [| |time]; try reflexivity.
  assert (Habs : sforall dateChar (absoluteDate getDate getMonth getFullYear time format)
                 = true).
  { unfold absoluteDate.
    destruct (String.eqb format "DD/MM/YYYY");
      rewrite !sforall_append, !padStart2_dateChars, !toString_dateChars
        by apply toString_dateChars; reflexivity. }
  destruct (String.eqb format "relative"); [|exact Habs].
  unfold relativeDate.
  repeat match goal with
         | |- context [if ?b then Some _ else _] => destruct b
         end;
    try exact Habs; rewrite ?sforall_append, ?toString_dateChars; reflexivity.
Qed.

(** X10.  Whatever the date, the format and the calendar, the text
    [formatRssDate] returns is made of digits, letters, spaces, slashes and
    hyphens only, so writing it into the markup unescaped, as the three
    layouts do, is the same as escaping it; for something that is not a
    valid date it is the empty string. *)
Theorem formatRssDate_needs_no_escaping (getDate getMonth getFullYear : Z -> Z)
    (now : Z) (date : DateArg) (format : string) :
  let text := formatRssDate getDate getMonth getFullYear now date format in
  sforall dateChar text = true
  /\ encodeHtml text = text
  /\ formatRssDate getDate getMonth getFullYear now NotADate format = ""
  /\ formatRssDate getDate getMonth getFullYear now InvalidDate format = "".
Proof.
  cbv zeta. pose proof (formatRssDate_chars getDate getMonth getFullYear now date format) as H.
  repeat split; [exact H|].
  apply encodeHtml_plain. revert H. apply sforall_impl. apply dateChar_plain.
Qed.

Lemma length_dropWhile p (s : string) : String.length (dropWhile p s) <= String.length s.
Proof.
  induction s as [|c s IH]; [apply Nat.le_refl|].
  cbn [dropWhile]. destruct (p c); cbn [String.length]; lia.
Qed.

Lemma length_dropWhileEnd p (s : string) :
  String.length (dropWhileEnd p s) <= String.length s.
Proof.
  destruct (dropWhileEnd_split p s) as (trail & Hs & _).
  rewrite Hs at 2. rewrite length_append. lia.
Qed.

Lemma length_trim (s : string) : String.length (trim s) <= String.length s.
Proof.
  unfold trim. pose proof (length_dropWhileEnd isWhiteSpace (dropWhile isWhiteSpace s)).
  pose proof (length_dropWhile isWhiteSpace s). lia.
Qed.

(** X11.  A truncated description is never longer than the limit plus the
    three characters of the ellipsis (a negative limit counting as 0),
    and a text that was cut ends with the ellipsis. *)
Theorem truncateRssText_length (text : string) (limit : Z) :
  (Z.of_nat (String.length (truncateRssText text limit)) <= Z.max 0 limit + 3)%Z
  /\ (text <> "" -> (limit < Z.of_nat (String.length text))%Z ->
      endsWith (truncateRssText text limit) "..." = true).
Proof.
  unfold truncateRssText, substring0. split.
  - destruct (falsy text) eqn:Hf.
    { apply falsy_true in Hf. subst text. cbn. lia. }
    destruct (Z.leb_spec (Z.of_nat (String.length text)) limit) as [H|H];
      cbn [orb]; [lia|].
    rewrite length_append. cbn [String.length].
    destruct (substring0_split (Z.to_nat limit) text) as (rest & _ & Hl).
    pose proof (length_trim (String.substring 0 (Z.to_nat limit) text)). lia.
  - intros Hne Hlt. destruct text as [|c text]; [congruence|]. cbn [falsy orb].
    apply Z.leb_gt in Hlt. rewrite Hlt.
    apply endsWith_iff. eexists. reflexivity.
Qed.

(** ** [sanitizeCssValue] and the structure of the results *)

Lemma sanitizeCssValue_chars (value : string) :
  sforall safeCssChar (sanitizeCssValue value) = true.
Proof.
  rewrite sanitizeCssValue_cases.
  destruct (falsy value); [reflexivity|].
  destruct (safePattern (trim value)) eqn:Hs; [|reflexivity].
  now apply safePattern_chars.
Qed.

Lemma safeCssChar_not_space (c : ascii) : safeCssChar c = true -> isWhiteSpace c = false.
Proof. destruct c as [[] [] [] [] [] [] [] []]; vm_compute; congruence. Qed.

Lemma safeCssChar_not_markup (c : ascii) :
  safeCssChar c = true -> negb (markupChar c) = true.
Proof. destruct c as [[] [] [] [] [] [] [] []]; vm_compute; congruence. Qed.

Lemma ends_not (p q : ascii -> bool) (s : string) :
  (forall c, p c = true -> q c = false) -> sforall p s = true ->
  headIs q s = false /\ lastIs q s = false.
Proof.
  intros Hpq. induction s as [|c s IH]; [now split|].
  cbn [sforall]. intros [Hc Hs]%andb_prop. split; [now apply Hpq|].
  destruct s as [|d s]; [now apply Hpq | now apply IH].
Qed.

Lemma trim_safe (s : string) : sforall safeCssChar s = true -> trim s = s.
Proof.
  intros H. destruct (ends_not _ _ _ safeCssChar_not_space H) as [Hh Hl].
  unfold trim. rewrite (dropWhile_id _ _ Hh). now apply dropWhileEnd_id.
Qed.

(** X12.  [sanitizeCssValue] is idempotent, and its result carries no
    white space at either end. *)
Theorem sanitizeCssValue_idempotent (value : string) :
  sanitizeCssValue (sanitizeCssValue value) = sanitizeCssValue value
  /\ trim (sanitizeCssValue value) = sanitizeCssValue value.
Proof.
  split; [|apply trim_safe, sanitizeCssValue_chars].
  rewrite !sanitizeCssValue_cases.
  destruct (falsy value); [reflexivity|].
  destruct (safePattern (trim value)) eqn:Hs; [|reflexivity].
  rewrite (trim_safe (trim value)) by now apply safePattern_chars.
  rewrite Hs. now destruct (trim value).
Qed.

Lemma countChar_append (c : ascii) (a b : string) :
  countChar c (a ++ b) = countChar c a + countChar c b.
Proof. induction a as [|x a IH]; cbn; [reflexivity | rewrite IH; lia]. Qed.

Lemma countChar_none (c : ascii) (p : ascii -> bool) (s : string) :
  p c = false -> sforall p s = true -> countChar c s = 0.
Proof.
  intros Hc. induction s as [|x s IH]; [reflexivity|].
  cbn [sforall countChar]. intros [Hx Hs]%andb_prop. rewrite (IH Hs).
  destruct (Ascii.eqb_spec x c) as [->|_]; [congruence | reflexivity].
Qed.

Lemma countChar_encodeHtml (c : ascii) (s : string) :
  markupChar c = true -> countChar c (encodeHtml s) = 0.
Proof.
  intros Hc. apply (countChar_none c (fun x => negb (markupChar x))).
  - now rewrite Hc.
  - apply encodeHtml_no_markup.
Qed.

Lemma countChar_sanitizeCssValue (c : ascii) (value : string) :
  markupChar c = true -> countChar c (sanitizeCssValue value) = 0.
Proof.
  intros Hc. apply (countChar_none c (fun x => negb (markupChar x))).
  - now rewrite Hc.
  - apply (sforall_impl safeCssChar); [apply safeCssChar_not_markup|].
    apply sanitizeCssValue_chars.
Qed.

(** Count one of the markup characters in a template whose holes are
    escaped text or a sanitized CSS value. *)
Ltac count_template :=
  unfold attr; rewrite !countChar_append;
  rewrite ?countChar_encodeHtml, ?countChar_sanitizeCssValue by reflexivity;
  reflexivity.

(** X13.  No configuration can add a tag or an attribute to an embed:
    when the frame is written, the result holds exactly 14 double quotes
    (the seven attributes of the template) and four angle brackets of each
    kind (the [div] and the [iframe], opened and closed), whatever the
    address and the height are. *)
Theorem renderEmbed_fixed_structure (parseURL : string -> option URL) (config : IEmbedConfig) :
  let out := html (renderEmbed parseURL config) in
  out = noUrlNotice \/ out = blockedNotice
  \/ (countChar dqc out = 14
      /\ countChar "<"%char out = 4
      /\ countChar ">"%char out = 4
      /\ countChar "'"%char out = 0).
Proof.
  cbv zeta. unfold renderEmbed.
  destruct (falsy (url config)); [now left|right].
  destruct (falsy (sanitizeEmbedUrl _ _ _)); [now left|right].
  cbn [html htmlOnly].
  destruct (default false (defer config)); repeat split; count_template.
Qed.

(** X14.  The loading and error states of feeds and files write their
    message escaped: whatever the message, each result holds the same six
    double quotes and six angle brackets of each kind as its template; an
    absent or empty loading message is replaced by the default text. *)
Theorem state_messages_are_escaped (message : option string) (error : string) :
  let fixed out :=
    countChar dqc out = 6 /\ countChar "<"%char out = 6 /\ countChar ">"%char out = 6 in
  fixed (html (renderRssLoading message))
  /\ fixed (html (renderRssError error))
  /\ fixed (html (renderFileLoading message))
  /\ fixed (html (renderFileError error))
  /\ renderRssLoading (Some "") = renderRssLoading None
  /\ renderFileLoading (Some "") = renderFileLoading None
  /\ includes "Loading feed..." (html (renderRssLoading None)) = true
  /\ includes "Loading content..." (html (renderFileLoading None)) = true.
Proof.
  cbv zeta beta.
  unfold renderRssLoading, renderRssError, renderFileLoading, renderFileError.
  cbn [html htmlOnly].
  repeat split; try reflexivity; count_template.
Qed.

Lemma countChar_date (c : ascii) (getDate getMonth getFullYear : Z -> Z)
    (now : Z) (date : DateArg) (format : string) :
  markupChar c = true ->
  countChar c (formatRssDate getDate getMonth getFullYear now date format) = 0.
Proof.
  intros Hc. apply (countChar_none c (fun x => negb (markupChar x))).
  - now rewrite Hc.
  - apply (sforall_impl dateChar); [|apply formatRssDate_chars].
    intros x Hx. apply dateChar_plain in Hx. unfold specialChar in Hx.
    apply negb_true_iff in Hx. apply orb_false_elim in Hx as [Hx _]. now rewrite Hx.
Qed.

(** X15.  The text of a feed item cannot add markup in any of the three
    layouts: for a double quote, a single quote or an angle bracket, two
    items that agree on which of author, description and thumbnail are
    empty give results with the same number of that character, whatever
    their titles, links, texts and dates are. *)
Theorem feed_items_add_no_markup
    (getDate getMonth getFullYear : Z -> Z) (now : Z) (config : IRssDisplayConfig)
    (item item' : IRssRenderItem) (c : ascii) :
  markupChar c = true ->
  itemShape item = itemShape item' ->
  countChar c (renderRssListItem getDate getMonth getFullYear now config item)
  = countChar c (renderRssListItem getDate getMonth getFullYear now config item')
  /\ countChar c (renderRssCard getDate getMonth getFullYear now config item)
     = countChar c (renderRssCard getDate getMonth getFullYear now config item')
  /\ countChar c (renderRssCompactItem getDate getMonth getFullYear now config item)
     = countChar c (renderRssCompactItem getDate getMonth getFullYear now config item').
Proof.
  intros Hc Hshape. unfold itemShape in Hshape.
  injection Hshape as Ha Hd Ht.
  assert (Hblock : forall (b : bool) a x s,
            falsy (if b then String a x ++ s else "") = negb b)
    by (intros []; reflexivity).
  assert (Hif : forall (b : bool) x y,
            countChar c (if b then x else y)
            = if b then countChar c x else countChar c y)
    by (intros []; reflexivity).
  unfold renderRssListItem, renderRssCard, renderRssCompactItem.
  rewrite <- Ha, <- Hd, !Hblock.
  destruct (thumbnail item) as [t|], (thumbnail item') as [t'|];
    [ rewrite <- Ht
    | rewrite Ht; cbn [negb]; rewrite andb_false_r
    | rewrite <- Ht; cbn [negb]; rewrite andb_false_r
    | ];
    (repeat split; unfold attr;
     repeat (rewrite ?countChar_append, ?Hif);
     rewrite ?countChar_encodeHtml, ?countChar_date by exact Hc;
     reflexivity).
Qed.

Lemma feed_items_add_no_markup_witness :
  let item :=
    {| title := "A <b>bold</b> claim"; link := "https://example.com/?a=1&b=2";
       description := "He said: <script>alert(1)</script>";
       publishedDate := ValidDate 0; author := "O'Neil"; thumbnail := None |} in
  let plain :=
    {| title := "t"; link := "l"; description := "d";
       publishedDate := InvalidDate; author := "a"; thumbnail := Some "" |} in
  let config :=
    {| showDate := true; showDescription := true; showImage := true;
       showAuthor := true; descriptionLimit := 200; dateFormat := "relative";
       linkTarget := "_blank" |} in
  countChar "<"%char (renderRssListItem (fun _ => 1%Z) (fun _ => 0%Z) (fun _ => 2024%Z)
                        0 config item)
  = countChar "<"%char (renderRssListItem (fun _ => 1%Z) (fun _ => 0%Z) (fun _ => 2024%Z)
                          0 config plain).
Proof.
  cbv zeta.
  refine (proj1 (feed_items_add_no_markup (fun _ => 1%Z) (fun _ => 0%Z) (fun _ => 2024%Z)
                   0 _ _ _ "<"%char _ _)); reflexivity.
Defined.

(** ** What [makeCssSafeId] guarantees *)

Lemma isIdStart_facts (c : ascii) :
  isIdStart c = true -> isIdChar c = true /\ isDigit c = false /\ isHyphen c = false.
Proof.
  destruct c as [[] [] [] [] [] [] [] []]; vm_compute; intros H;
    try discriminate H; repeat split.
Qed.

Lemma dropWhileEnd_head p (c : ascii) (s : string) :
  p c = false -> exists rest, dropWhileEnd p (String c s) = String c rest.
Proof.
  intros Hc. cbn [dropWhileEnd]. destruct (dropWhileEnd p s) as [|b r].
  - rewrite Hc. now exists "".
  - now exists (String b r).
Qed.

Lemma makeCssSafeId_keeps_start (now : Z) (c : ascii) (s : string) :
  isIdStart c = true -> exists rest, makeCssSafeId now (String c s) = String c rest.
Proof.
  intros Hc. destruct (isIdStart_facts c Hc) as (Hid & Hd & Hh).
  unfold makeCssSafeId. cbn [falsy smap]. rewrite Hid.
  cbn [startsWithDigit]. rewrite Hd.
  unfold collapseHyphens, stripHyphens. cbn [collapseFrom]. rewrite Hh.
  cbn [dropWhile]. rewrite Hh.
  destruct (dropWhileEnd_head isHyphen c
              (collapseFrom false (smap (fun c => if isIdChar c then c else hyphen) s)) Hh)
    as [rest ->].
  now exists rest.
Qed.

(** X16.  What [makeCssSafeId] guarantees on every input: the identifier
    is not empty, is made of letters, digits, underscores and hyphens,
    has no two hyphens in a row and no hyphen at either end.  For an
    input that starts with a letter or an underscore it matches the
    pattern of a CSS identifier, and on every result that matches the
    pattern the function is idempotent. *)
Theorem makeCssSafeId_guarantees (now : Z) (str : string) :
  (0 <= now)%Z ->
  let id := makeCssSafeId now str in
  id <> ""
  /\ sforall isIdChar id = true
  /\ noDoubleHyphen id = true
  /\ noTrailingHyphen id = true
  /\ headIs isHyphen id = false
  /\ (headIs isIdStart str = true -> cssIdPattern id = true)
  /\ (cssIdPattern id = true -> makeCssSafeId now id = id).
Proof.
  intros Hnow. cbv zeta.
  destruct (makeCssSafeId_shape now str Hnow) as (Hne & Hid & Hn & Ht & Hh & Hpat).
  repeat (split; [assumption|]). split.
  - destruct str as [|c s]; [discriminate|]. cbn [headIs]. intros Hc.
    destruct Hpat as [Hpat|Hdigit]; [exact Hpat|].
    destruct (makeCssSafeId_keeps_start now c s Hc) as [rest E].
    rewrite E in Hdigit. cbn [headIs] in Hdigit.
    destruct (isIdStart_facts c Hc) as (_ & Hd & _). congruence.
  - now apply makeCssSafeId_idempotent_on_valid.
Qed.

Lemma makeCssSafeId_guarantees_witness :
  let id := makeCssSafeId 1700000000000 "Sales chart #1 (2024)" in
  id <> ""
  /\ sforall isIdChar id = true
  /\ noDoubleHyphen id = true
  /\ noTrailingHyphen id = true
  /\ headIs isHyphen id = false
  /\ (headIs isIdStart "Sales chart #1 (2024)" = true -> cssIdPattern id = true)
  /\ (cssIdPattern id = true -> makeCssSafeId 1700000000000 id = id).
Proof.
  apply (makeCssSafeId_guarantees 1700000000000 "Sales chart #1 (2024)"). lia.
Defined.

End RendererMoreProps.

(** * Further properties of the tab controller *)

Module TabsMoreProps.
Import AddTabs TabsMore TabClaims MoreClaims TabsProps.
Local Open Scope string_scope.
Local Open Scope list_scope.

(** ** What a handler can do *)

(** Every handler either leaves the state alone or is one call of
    [activateTab]. *)
Lemma step_cases (st : State) (a : Action) :
  step st a = st \/ exists i focusTab, step st a = snd (activateTab i focusTab st).
Proof.
  destruct a as [i|i k|i]; cbn [step].
  - unfold onClick. case_bool_decide; eauto.
  - unfold onKeydown.
    repeat match goal with
           | |- context [if ?b then _ else _] => destruct b
           | |- context [match ?k with ArrowRight => _ | _ => _ end] => destruct k
           end; eauto.
  - unfold activateByIndex. case_bool_decide; eauto.
Qed.

(** An invariant of [activateTab] that holds at the start holds after
    any sequence of clicks, key presses and deep-link calls. *)
Lemma run_invariant (P : State -> Prop) (actions : list Action) (st : State) :
  (forall s i focusTab, P s -> P (snd (activateTab i focusTab s))) ->
  P st -> P (run st actions).
Proof.
  intros Hact. revert st. induction actions as [|a actions IH]; intros st Hst; [exact Hst|].
  unfold run. cbn [foldl]. apply IH.
  destruct (step_cases st a) as [->|(i & focusTab & ->)]; auto.
Qed.

(** ** Placeholder tabs *)

Lemma activateTab_keeps_placeholders (i : nat) (focusTab : bool) (st : State) (j : nat) :
  placeholderAt (c (snd (activateTab i focusTab st))) j = placeholderAt (c st) j.
Proof.
  unfold activateTab. destruct (placeholderAt (c st) i); [reflexivity|].
  cbn [snd c]. unfold placeholderAt.
  rewrite list_lookup_alter, !list_lookup_fmap.
  destruct (decide (i = j)) as [->|]; destruct (c st !! j); reflexivity.
Qed.

Lemma activateTab_active_index (i : nat) (focusTab : bool) (st : State) :
  (placeholderAt (c st) i = true /\ u (snd (activateTab i focusTab st)) = u st)
  \/ (placeholderAt (c st) i = false /\ u (snd (activateTab i focusTab st)) = i).
Proof.
  unfold activateTab. destruct (placeholderAt (c st) i); [left|right]; now split.
Qed.

(** X17.  A placeholder tab never becomes the active tab: if the tab that
    is active at the start is no placeholder, then after any sequence of
    clicks, key presses and deep-link calls the active tab is no
    placeholder either; and no handler changes which tabs are
    placeholders. *)
Theorem placeholder_never_active (st : State) (actions : list Action) :
  placeholderAt (c st) (u st) = false ->
  placeholderAt (c (run st actions)) (u (run st actions)) = false
  /\ (forall j, placeholderAt (c (run st actions)) j = placeholderAt (c st) j).
Proof.
  intros Hstart.
  apply (run_invariant
           (fun s => placeholderAt (c s) (u s) = false
                     /\ forall j, placeholderAt (c s) j = placeholderAt (c st) j)).
  - intros s i focusTab [Hu Hall]. split.
    + rewrite activateTab_keeps_placeholders.
      destruct (activateTab_active_index i focusTab s) as [[_ ->]|[Hp ->]]; auto.
    + intros j. now rewrite activateTab_keeps_placeholders.
  - now split.
Qed.

Lemma placeholder_never_active_witness :
  let st := init [plainTab; placeholderTab; plainTab]
                 [plainPanel; plainPanel; plainPanel] false in
  let st' := run st [Click 1; Keydown 0 ArrowRight; DeepLink 1; Keydown 2 ArrowLeft] in
  placeholderAt (c st') (u st') = false
  /\ (forall j, placeholderAt (c st') j = placeholderAt (c st) j).
Proof.
  apply (placeholder_never_active
           (init [plainTab; placeholderTab; plainTab]
                 [plainPanel; plainPanel; plainPanel] false)).
  reflexivity.
Defined.

(** ** Lazy loading *)

Lemma lazyLoads_app (a b : list Event) : lazyLoads (a ++ b) = lazyLoads a ++ lazyLoads b.
Proof. apply omap_app. Qed.

Lemma tabChanges_app (a b : list Event) : tabChanges (a ++ b) = tabChanges a ++ tabChanges b.
Proof. apply omap_app. Qed.

Lemma needsLazyLoad_shown (p : Panel) : needsLazyLoad (showPanel p) = needsLazyLoad p.
Proof. reflexivity. Qed.

(** The lazy attributes and iframes of the panels after [activateTab]. *)
Lemma activateTab_panels (i : nat) (focusTab : bool) (st : State) :
  placeholderAt (c st) i = false ->
  let st' := snd (activateTab i focusTab st) in
  let lazy := match r st !! i with Some p => needsLazyLoad p | None => false end in
  lazyLoads (events st') = lazyLoads (events st) ++ (if lazy then [i] else [])
  /\ tabChanges (events st') = tabChanges (events st) ++ [i]
  /\ length (r st') = length (r st)
  /\ forall j p, r st !! j = Some p ->
       exists p', r st' !! j = Some p' /\ data_lazy p' = data_lazy p /\
         if lazy && bool_decide (j = i)
         then data_lazy_loaded p' = Some "true"
              /\ iframes p' = promoteIframe <$> iframes p
         else data_lazy_loaded p' = data_lazy_loaded p /\ iframes p' = iframes p.
Proof.
  intros Hp. cbv zeta. unfold activateTab. rewrite Hp. cbn [snd events r].
  assert (Hi : match alter showPanel i (hidePanel <$> r st) !! i with
               | Some p => needsLazyLoad p
               | None => false
               end
               = match r st !! i with Some p => needsLazyLoad p | None => false end).
  { rewrite list_lookup_alter_eq, list_lookup_fmap. now destruct (r st !! i). }
  rewrite Hi. clear Hi.
  set (lazy := match r st !! i with Some p => needsLazyLoad p | None => false end).
  split; [|split; [|split]].
  - rewrite !lazyLoads_app. destruct lazy; cbn; now rewrite ?app_nil_r.
  - rewrite !tabChanges_app. destruct lazy; reflexivity.
  - destruct lazy; now rewrite ?length_alter, length_fmap.
  - intros j p Hj.
    destruct lazy; cbn [andb].
    + destruct (decide (i = j)) as [->|Hne].
      * rewrite !list_lookup_alter_eq, list_lookup_fmap, Hj.
        rewrite bool_decide_true by reflexivity. cbn.
        eexists; repeat split; reflexivity.
      * rewrite !list_lookup_alter_ne, list_lookup_fmap, Hj by exact Hne.
        rewrite bool_decide_false by congruence. cbn.
        eexists; repeat split; reflexivity.
    + destruct (decide (i = j)) as [->|Hne].
      * rewrite !list_lookup_alter_eq, list_lookup_fmap, Hj. cbn.
        eexists; repeat split; reflexivity.
      * rewrite !list_lookup_alter_ne, list_lookup_fmap, Hj by exact Hne. cbn.
        eexists; repeat split; reflexivity.
Qed.

Lemma activateTab_lazyTracked (st0 st : State) (i : nat) (focusTab : bool) :
  lazyTracked st0 st -> lazyTracked st0 (snd (activateTab i focusTab st)).
Proof.
  intros (Hnd & Hlen & Hin & Hpanels).
  destruct (placeholderAt (c st) i) eqn:Hp.
  { rewrite activateTab_placeholder by exact Hp. now repeat split. }
  destruct (activateTab_panels i focusTab st Hp) as (Hl & _ & Hlen' & Hr).
  set (st' := snd (activateTab i focusTab st)) in *.
  set (lazy := match r st !! i with Some p => needsLazyLoad p | None => false end) in *.
  assert (Hfresh : lazy = true -> (i ∉ lazyLoads (events st)) /\ i < length (r st0)).
  { intros Hlazy. subst lazy. destruct (r st !! i) as [p|] eqn:Hpi; [|discriminate].
    assert (Hi : i < length (r st0)) by (rewrite <- Hlen; eauto using lookup_lt_Some).
    split; [|exact Hi]. intros Hmem.
    destruct (lookup_lt_is_Some_2 (r st0) i Hi) as [p0 Hp0].
    destruct (Hpanels i p0 Hp0) as (q & Hq & _ & Hcase).
    rewrite bool_decide_true in Hcase by exact Hmem.
    destruct Hcase as (_ & Hloaded & _).
    assert (q = p) by congruence. subst q.
    unfold needsLazyLoad in Hlazy. rewrite Hloaded in Hlazy.
    cbn in Hlazy. now rewrite andb_false_r in Hlazy. }
  unfold lazyTracked. rewrite Hl, Hlen'.
  split; [|split; [exact Hlen|split]].
  - destruct lazy; [|now rewrite app_nil_r].
    destruct (Hfresh eq_refl) as [Hnot _].
    apply NoDup_app. split; [exact Hnd|]. split; [|apply NoDup_singleton].
    intros x Hx [= ->]%list_elem_of_singleton. contradiction.
  - intros j [Hj|Hj]%elem_of_app; [now apply Hin|].
    destruct lazy; [|now apply elem_of_nil in Hj].
    apply list_elem_of_singleton in Hj as ->. now apply Hfresh.
  - intros j p0 Hp0.
    destruct (Hpanels j p0 Hp0) as (p & Hpj & Hdl & Hcase).
    destruct (Hr j p Hpj) as (p' & Hp' & Hdl' & Hcase').
    exists p'. split; [exact Hp'|]. split; [congruence|].
    destruct lazy eqn:Hlazy; cbn [andb] in Hcase'.
    + destruct (Hfresh eq_refl) as [Hnot _].
      destruct (decide (j = i)) as [->|Hne].
      * rewrite bool_decide_true in Hcase' by reflexivity.
        rewrite bool_decide_false in Hcase by exact Hnot.
        rewrite bool_decide_true by (apply elem_of_app; right; apply list_elem_of_here).
        destruct Hcase as [Hlo Hif]. destruct Hcase' as [Hlo' Hif'].
        split; [|split; [exact Hlo' | congruence]].
        subst lazy. rewrite Hpj in Hlazy.
        unfold needsLazyLoad in *. now rewrite <- Hdl, <- Hlo.
      * rewrite bool_decide_false in Hcase' by exact Hne.
        destruct Hcase' as [Hlo' Hif'].
        case_bool_decide as Hold.
        -- rewrite bool_decide_true by (apply elem_of_app; now left).
           destruct Hcase as (Hn & Hlo & Hif). repeat split; congruence.
        -- rewrite bool_decide_false.
           ++ destruct Hcase as [Hlo Hif]. split; congruence.
           ++ intros [H|H%list_elem_of_singleton]%elem_of_app; [contradiction|congruence].
    + rewrite app_nil_r. destruct Hcase' as [Hlo' Hif'].
      case_bool_decide.
      * destruct Hcase as (Hn & Hlo & Hif). repeat split; congruence.
      * destruct Hcase as [Hlo Hif]. split; congruence.
Qed.

Lemma lazyTracked_start (st : State) : events st = [] -> lazyTracked st st.
Proof.
  intros He. unfold lazyTracked. rewrite He. cbn.
  split; [apply NoDup_nil_2|]. split; [reflexivity|].
  split; [intros i Hi; now apply elem_of_nil in Hi|].
  intros i p0 Hp0. exists p0. repeat split; auto.
Qed.

Lemma lazyTracked_run (st : State) (actions : list Action) :
  events st = [] -> lazyTracked st (run st actions).
Proof.
  intros He. apply (run_invariant (lazyTracked st)).
  - intros s i focusTab. apply activateTab_lazyTracked.
  - now apply lazyTracked_start.
Qed.

Lemma init_panel_lookup (tabs : list Tab) (panels : list Panel) (vertical : bool) (i : nat) :
  r (init tabs panels vertical) !! i
  = initPanel (lastActive panels 0 0) i <$> panels !! i.
Proof. cbn [init r]. apply list_lookup_imap. Qed.

Lemma initPanel_needsLazyLoad (u0 i : nat) (p : Panel) :
  needsLazyLoad (initPanel u0 i p) = true ->
  i ≠ u0 /\ attrIs (data_lazy p) "true" = true /\ attrIs (data_lazy_loaded p) "true" = false.
Proof.
  unfold needsLazyLoad, initPanel. cbn [data_lazy data_lazy_loaded].
  intros [Hl Hn]%andb_prop. rewrite Hl, andb_true_r in Hn.
  case_bool_decide as Hi; cbn in Hn.
  - discriminate.
  - now apply negb_true_iff in Hn.
Qed.

(** X18.  Lazy loading happens once.  After the set-up and any sequence
    of clicks, key presses and deep-link calls, no panel has been sent
    the lazy-load notification twice by [activateTab]; a panel that was
    sent it carries [data-lazy="true"] in the markup, did not carry
    [data-lazy-loaded="true"] there, and is not the initially active
    panel (whose notification is the set-up's own deferred one). *)
Theorem lazy_load_sent_once (tabs : list Tab) (panels : list Panel) (vertical : bool)
    (actions : list Action) :
  let st0 := init tabs panels vertical in
  let st := run st0 actions in
  NoDup (lazyLoads (events st))
  /\ forall i, i ∈ lazyLoads (events st) ->
       i ≠ u st0
       /\ exists p, panels !! i = Some p
            /\ attrIs (data_lazy p) "true" = true
            /\ attrIs (data_lazy_loaded p) "true" = false.
Proof.
  cbv zeta.
  destruct (lazyTracked_run (init tabs panels vertical) actions eq_refl)
    as (Hnd & _ & Hin & Hpanels).
  split; [exact Hnd|]. intros i Hi.
  destruct (lookup_lt_is_Some_2 _ i (Hin i Hi)) as [p0 Hp0].
  destruct (Hpanels i p0 Hp0) as (q & _ & _ & Hcase).
  rewrite bool_decide_true in Hcase by exact Hi. destruct Hcase as [Hneeds _].
  rewrite init_panel_lookup in Hp0.
  destruct (panels !! i) as [p|] eqn:Hp; [|discriminate].
  injection Hp0 as <-.
  apply initPanel_needsLazyLoad in Hneeds as (Hne & Hl & Hn).
  split; [exact Hne|]. exists p. auto.
Qed.

(** X19.  Deferred iframes.  After the set-up and any sequence of clicks,
    key presses and deep-link calls, the iframes of a panel are those of
    the markup with every [data-src] moved to [src] if the panel's
    lazy-load notification was sent by [activateTab], and exactly those
    of the markup otherwise; in the first case the panel carries
    [data-lazy-loaded="true"].  No handler adds, removes or reorders
    panels. *)
Theorem lazy_iframes_promoted_with_notification (tabs : list Tab) (panels : list Panel)
    (vertical : bool) (actions : list Action) :
  let st := run (init tabs panels vertical) actions in
  length (r st) = length panels
  /\ forall i p, panels !! i = Some p ->
       exists p', r st !! i = Some p'
         /\ data_lazy p' = data_lazy p
         /\ if bool_decide (i ∈ lazyLoads (events st))
            then data_lazy_loaded p' = Some "true"
                 /\ iframes p' = promoteIframe <$> iframes p
            else iframes p' = iframes p.
Proof.
  cbv zeta.
  destruct (lazyTracked_run (init tabs panels vertical) actions eq_refl)
    as (_ & Hlen & _ & Hpanels).
  split.
  { rewrite Hlen. cbn [init r]. apply length_imap. }
  intros i p Hp.
  destruct (Hpanels i (initPanel (lastActive panels 0 0) i p)) as (q & Hq & Hdl & Hcase).
  { rewrite init_panel_lookup, Hp. reflexivity. }
  exists q. split; [exact Hq|]. split; [exact Hdl|].
  case_bool_decide.
  - destruct Hcase as (_ & Hlo & Hif). auto.
  - apply Hcase.
Qed.

(** ** Tab-change notifications *)

Lemma activateTab_tabChanges (i : nat) (focusTab : bool) (st : State) :
  let st' := snd (activateTab i focusTab st) in
  (placeholderAt (c st) i = true /\ st' = st)
  \/ (placeholderAt (c st) i = false
      /\ tabChanges (events st') = tabChanges (events st) ++ [i]
      /\ u st' = i).
Proof.
  cbv zeta. destruct (placeholderAt (c st) i) eqn:Hp.
  - left. split; [reflexivity|]. now rewrite activateTab_placeholder by exact Hp.
  - right. split; [reflexivity|].
    destruct (activateTab_panels i focusTab st Hp) as (_ & Ht & _).
    split; [exact Ht|].
    unfold activateTab. now rewrite Hp.
Qed.

(** X20.  The tab-change notifications follow the active tab.  After the
    set-up and any sequence of clicks, key presses and deep-link calls,
    either no tab-change notification has been sent and the active index
    is the initial one, or the last notification sent names the active
    index; and no notification ever names a placeholder tab. *)
Theorem last_tab_change_names_active_tab (tabs : list Tab) (panels : list Panel)
    (vertical : bool) (actions : list Action) :
  let st0 := init tabs panels vertical in
  let st := run st0 actions in
  ((tabChanges (events st) = [] /\ u st = u st0)
   \/ last (tabChanges (events st)) = Some (u st))
  /\ forall i, i ∈ tabChanges (events st) -> placeholderAt tabs i = false.
Proof.
  cbv zeta.
  set (st0 := init tabs panels vertical).
  assert (Hph : forall j, placeholderAt (c st0) j = placeholderAt tabs j).
  { intros j. unfold placeholderAt. cbn [st0 init c]. rewrite list_lookup_imap.
    destruct (tabs !! j); reflexivity. }
  refine (proj1 (run_invariant
           (fun s => (((tabChanges (events s) = [] /\ u s = u st0)
                       \/ last (tabChanges (events s)) = Some (u s))
                      /\ (forall i, i ∈ tabChanges (events s) -> placeholderAt tabs i = false))
                     /\ forall j, placeholderAt (c s) j = placeholderAt tabs j)
           actions st0 _ _)).
  - intros s i focusTab [[Hlast Hall] Hsame].
    split; [|intros j; now rewrite activateTab_keeps_placeholders].
    destruct (activateTab_tabChanges i focusTab s) as [[_ ->]|(Hp & -> & ->)].
    + now split.
    + split.
      * right. apply last_snoc.
      * intros j [Hj|Hj%list_elem_of_singleton]%elem_of_app; [now apply Hall|].
        subst j. now rewrite <- Hsame.
  - split; [split|exact Hph].
    + left. split; reflexivity.
    + intros i Hi. now apply elem_of_nil in Hi.
Qed.

(** ** Keyboard navigation *)

Lemma mod_thrice (a n : nat) :
  0 < n -> a < 3 * n ->
  a mod n = if (a <? n)%nat then a else if (a <? 2 * n)%nat then a - n else a - 2 * n.
Proof.
  intros Hn Ha.
  destruct (Nat.ltb_spec a n) as [H1|H1]; [now apply Nat.mod_small|].
  destruct (Nat.ltb_spec a (2 * n)) as [H2|H2].
  - replace a with (a - n + 1 * n) at 1 by lia.
    rewrite Nat.Div0.mod_add. apply Nat.mod_small. lia.
  - replace a with (a - 2 * n + 2 * n) at 1 by lia.
    rewrite Nat.Div0.mod_add. apply Nat.mod_small. lia.
Qed.

Ltac mod_lia :=
  rewrite ?Nat.Div0.add_mod_idemp_l;
  repeat (rewrite mod_thrice by lia);
  repeat match goal with
         | |- context [(?a <? ?b)%nat] => destruct (Nat.ltb_spec a b)
         | H : context [(?a <? ?b)%nat] |- _ => destruct (Nat.ltb_spec a b)
         end;
  lia.

(** The loop going forward: it stops after [k] steps, on the first tab
    from [start] on (cyclically) that is no placeholder, or when the
    attempts are used up. *)
Lemma skipPlaceholders_forward (tabs : list Tab) (fuel : nat) :
  forall start, start < length tabs ->
  exists k, k <= fuel
    /\ skipPlaceholders tabs true fuel start = (start + k) mod length tabs
    /\ (forall m, m < k -> placeholderAt tabs ((start + m) mod length tabs) = true)
    /\ (k < fuel -> placeholderAt tabs ((start + k) mod length tabs) = false).
Proof.
  induction fuel as [|fuel IH]; intros start Hs.
  - exists 0. rewrite Nat.add_0_r, Nat.mod_small by exact Hs.
    repeat split; try lia; auto.
  - cbn [skipPlaceholders]. destruct (placeholderAt tabs start) eqn:Hp.
    + destruct (IH ((start + 1) mod length tabs)) as (k & Hk & Hres & Hall & Hlive).
      { apply Nat.mod_upper_bound. lia. }
      rewrite Nat.Div0.add_mod_idemp_l in Hres, Hlive.
      replace (start + 1 + k) with (start + S k) in Hres, Hlive by lia.
      exists (S k). split; [lia|]. split; [exact Hres|]. split.
      * intros [|m] Hm.
        -- now rewrite Nat.add_0_r, Nat.mod_small.
        -- specialize (Hall m ltac:(lia)).
           rewrite Nat.Div0.add_mod_idemp_l in Hall.
           now replace (start + 1 + m) with (start + S m) in Hall by lia.
      * intros Hlt. apply Hlive. lia.
    + exists 0. rewrite Nat.add_0_r, Nat.mod_small by exact Hs.
      repeat split; try lia; auto.
Qed.

(** The loop going backward. *)
Lemma skipPlaceholders_backward (tabs : list Tab) (fuel : nat) :
  fuel <= length tabs ->
  forall start, start < length tabs ->
  exists k, k <= fuel
    /\ skipPlaceholders tabs false fuel start = (start + (length tabs - k)) mod length tabs
    /\ (forall m, m < k ->
          placeholderAt tabs ((start + (length tabs - m)) mod length tabs) = true)
    /\ (k < fuel ->
          placeholderAt tabs ((start + (length tabs - k)) mod length tabs) = false).
Proof.
  set (n := length tabs).
  assert (Hback : forall a, a < n -> (a + (n - 0)) mod n = a) by (intros a Ha; mod_lia).
  induction fuel as [|fuel IH]; intros Hf start Hs.
  - exists 0. rewrite Hback by exact Hs. repeat split; try lia; auto.
  - cbn [skipPlaceholders]. fold n. destruct (placeholderAt tabs start) eqn:Hp.
    + destruct (IH ltac:(lia) ((start + n - 1) mod n)) as (k & Hk & Hres & Hall & Hlive).
      { apply Nat.mod_upper_bound. lia. }
      assert (Hshift : forall m, m <= fuel ->
                ((start + n - 1) mod n + (n - m)) mod n = (start + (n - S m)) mod n).
      { intros m Hm. mod_lia. }
      rewrite Hshift in Hres, Hlive by lia.
      exists (S k). split; [lia|]. split; [exact Hres|]. split.
      * intros [|m] Hm.
        -- now rewrite Hback.
        -- rewrite <- Hshift by lia. apply Hall. lia.
      * intros Hlt. apply Hlive. lia.
    + exists 0. rewrite Hback by exact Hs. repeat split; try lia; auto.
Qed.

Lemma nearest_forward (tabs : list Tab) (i j : nat) :
  i < length tabs -> j < length tabs -> j ≠ i -> placeholderAt tabs j = false ->
  exists k, 1 <= k < length tabs
    /\ skipPlaceholders tabs true (length tabs) ((i + 1) mod length tabs)
       = (i + k) mod length tabs
    /\ (i + k) mod length tabs ≠ i
    /\ (i + k) mod length tabs < length tabs
    /\ placeholderAt tabs ((i + k) mod length tabs) = false
    /\ (forall m, 1 <= m < k -> placeholderAt tabs ((i + m) mod length tabs) = true).
Proof.
  set (n := length tabs). intros Hi Hj Hne Hlive.
  destruct (skipPlaceholders_forward tabs n ((i + 1) mod n)) as (k & Hk & Hres & Hall & Hfound).
  { apply Nat.mod_upper_bound. lia. }
  fold n in Hres, Hall, Hfound.
  set (d := if (j <? i)%nat then j + n - i else j - i).
  assert (Hd : 1 <= d < n) by (subst d; destruct (Nat.ltb_spec j i); lia).
  assert (Hjd : ((i + 1) mod n + (d - 1)) mod n = j).
  { subst d. destruct (Nat.ltb_spec j i); mod_lia. }
  assert (Hkd : k <= d - 1).
  { destruct (Nat.le_gt_cases k (d - 1)) as [H|H]; [exact H|].
    specialize (Hall (d - 1) H). rewrite Hjd in Hall. congruence. }
  assert (Hshift : ((i + 1) mod n + k) mod n = (i + S k) mod n).
  { rewrite Nat.Div0.add_mod_idemp_l. f_equal. lia. }
  exists (S k). split; [lia|]. rewrite <- Hshift.
  split; [exact Hres|]. split; [rewrite Hshift; mod_lia|].
  split; [apply Nat.mod_upper_bound; lia|].
  split; [apply Hfound; lia|].
  intros m Hm. specialize (Hall (m - 1) ltac:(lia)).
  rewrite Nat.Div0.add_mod_idemp_l in Hall.
  now replace (i + 1 + (m - 1)) with (i + m) in Hall by lia.
Qed.

Lemma nearest_backward (tabs : list Tab) (i j : nat) :
  i < length tabs -> j < length tabs -> j ≠ i -> placeholderAt tabs j = false ->
  exists k, 1 <= k < length tabs
    /\ skipPlaceholders tabs false (length tabs) ((i + length tabs - 1) mod length tabs)
       = (i + (length tabs - k)) mod length tabs
    /\ (i + (length tabs - k)) mod length tabs ≠ i
    /\ (i + (length tabs - k)) mod length tabs < length tabs
    /\ placeholderAt tabs ((i + (length tabs - k)) mod length tabs) = false
    /\ (forall m, 1 <= m < k ->
          placeholderAt tabs ((i + (length tabs - m)) mod length tabs) = true).
Proof.
  set (n := length tabs). intros Hi Hj Hne Hlive.
  destruct (skipPlaceholders_backward tabs n (Nat.le_refl _) ((i + n - 1) mod n))
    as (k & Hk & Hres & Hall & Hfound).
  { apply Nat.mod_upper_bound. lia. }
  fold n in Hres, Hall, Hfound.
  assert (Hshift : forall m, m < n ->
            ((i + n - 1) mod n + (n - m)) mod n = (i + (n - S m)) mod n).
  { intros m Hm. mod_lia. }
  set (d := if (j <? i)%nat then i - j else i + n - j).
  assert (Hd : 1 <= d < n) by (subst d; destruct (Nat.ltb_spec j i); lia).
  assert (Hjd : (i + (n - S (d - 1))) mod n = j).
  { subst d. destruct (Nat.ltb_spec j i); mod_lia. }
  assert (Hkd : k <= d - 1).
  { destruct (Nat.le_gt_cases k (d - 1)) as [H|H]; [exact H|].
    specialize (Hall (d - 1) H). rewrite Hshift, Hjd in Hall by lia. congruence. }
  rewrite Hshift in Hres by lia.
  exists (S k). split; [lia|].
  split; [exact Hres|]. split; [mod_lia|].
  split; [apply Nat.mod_upper_bound; lia|].
  split; [rewrite <- Hshift by lia; apply Hfound; lia|].
  intros m Hm. specialize (Hall (m - 1) ltac:(lia)).
  rewrite Hshift in Hall by lia.
  now replace (S (m - 1)) with m in Hall by lia.
Qed.

Lemma activateTab_live (i : nat) (st : State) :
  i < length (c st) -> placeholderAt (c st) i = false ->
  u (snd (activateTab i true st)) = i /\ focused (snd (activateTab i true st)) = Some i.
Proof.
  intros Hi Hp. unfold activateTab. rewrite Hp. cbn [snd u focused andb].
  rewrite bool_decide_true; [now split|].
  now rewrite length_alter, length_fmap.
Qed.

(** X21.  Arrow keys.  On a strip with another tab that is no
    placeholder, the arrow key of the strip's orientation pressed on tab
    [i] activates and focuses the nearest tab in its direction, going
    round the ends, that is no placeholder: the tab [k] steps away, all
    tabs passed over being placeholders; that tab is never [i] itself. *)
Theorem arrow_key_moves_to_nearest_live_tab (st : State) (i j : nat) (forward : bool) :
  i < length (c st) -> j < length (c st) -> j ≠ i -> placeholderAt (c st) j = false ->
  exists k, 1 <= k < length (c st)
    /\ (forall m, 1 <= m < k ->
          placeholderAt (c st) (stepsFrom (length (c st)) forward i m) = true)
    /\ placeholderAt (c st) (stepsFrom (length (c st)) forward i k) = false
    /\ stepsFrom (length (c st)) forward i k ≠ i
    /\ onKeydown i (arrowKey (isVertical st) forward) st
       = snd (activateTab (stepsFrom (length (c st)) forward i k) true st)
    /\ u (onKeydown i (arrowKey (isVertical st) forward) st)
       = stepsFrom (length (c st)) forward i k
    /\ focused (onKeydown i (arrowKey (isVertical st) forward) st)
       = Some (stepsFrom (length (c st)) forward i k).
Proof.
  intros Hi Hj Hne Hlive. destruct forward.
  - destruct (nearest_forward (c st) i j Hi Hj Hne Hlive)
      as (k & Hk & Hres & Hni & Hlt & Hfound & Hall).
    exists k. cbn [stepsFrom]. split; [exact Hk|]. split; [exact Hall|].
    split; [exact Hfound|]. split; [exact Hni|].
    assert (Hkey : onKeydown i (arrowKey (isVertical st) true) st
                   = snd (activateTab ((i + k) mod length (c st)) true st)).
    { unfold onKeydown, arrowKey. destruct (isVertical st); cbn [key_eqb orb];
        rewrite Hres, bool_decide_true by exact Hni; reflexivity. }
    rewrite Hkey. split; [reflexivity|]. now apply activateTab_live.
  - destruct (nearest_backward (c st) i j Hi Hj Hne Hlive)
      as (k & Hk & Hres & Hni & Hlt & Hfound & Hall).
    exists k. cbn [stepsFrom]. split; [exact Hk|]. split; [exact Hall|].
    split; [exact Hfound|]. split; [exact Hni|].
    assert (Hkey : onKeydown i (arrowKey (isVertical st) false) st
                   = snd (activateTab ((i + (length (c st) - k)) mod length (c st)) true st)).
    { unfold onKeydown, arrowKey. destruct (isVertical st); cbn [key_eqb orb];
        rewrite Hres, bool_decide_true by exact Hni; reflexivity. }
    rewrite Hkey. split; [reflexivity|]. now apply activateTab_live.
Qed.

Lemma arrow_key_moves_to_nearest_live_tab_witness :
  let st := init [plainTab; placeholderTab; placeholderTab; plainTab]
                 [plainPanel; plainPanel; plainPanel; plainPanel] false in
  exists k, 1 <= k < length (c st)
    /\ (forall m, 1 <= m < k ->
          placeholderAt (c st) (stepsFrom (length (c st)) true 3 m) = true)
    /\ placeholderAt (c st) (stepsFrom (length (c st)) true 3 k) = false
    /\ stepsFrom (length (c st)) true 3 k ≠ 3
    /\ onKeydown 3 (arrowKey (isVertical st) true) st
       = snd (activateTab (stepsFrom (length (c st)) true 3 k) true st)
    /\ u (onKeydown 3 (arrowKey (isVertical st) true) st)
       = stepsFrom (length (c st)) true 3 k
    /\ focused (onKeydown 3 (arrowKey (isVertical st) true) st)
       = Some (stepsFrom (length (c st)) true 3 k).
Proof.
  apply (arrow_key_moves_to_nearest_live_tab
           (init [plainTab; placeholderTab; placeholderTab; plainTab]
                 [plainPanel; plainPanel; plainPanel; plainPanel] false) 3 0 true).
  - cbn. lia.
  - cbn. lia.
  - lia.
  - reflexivity.
Defined.

(** X22.  Home and End.  Let [first] and [last] be the first and the last
    tab that is no placeholder.  Home targets tab 0 when that is no
    placeholder and otherwise the LAST such tab (the loop walks backward
    from tab 0 and goes round); End targets the last tab when that is no
    placeholder and otherwise the FIRST such tab.  The target is
    activated and focused unless it is the tab the key was pressed on. *)
Theorem home_end_targets (st : State) (i first last_ : nat) :
  first <= last_ < length (c st) ->
  placeholderAt (c st) first = false ->
  placeholderAt (c st) last_ = false ->
  (forall m, m < first -> placeholderAt (c st) m = true) ->
  (forall m, last_ < m < length (c st) -> placeholderAt (c st) m = true) ->
  onKeydown i Home st = moveTo (if bool_decide (first = 0) then 0 else last_) i st
  /\ onKeydown i End_ st
     = moveTo (if bool_decide (last_ = length (c st) - 1) then last_ else first) i st.
Proof.
  set (n := length (c st)). intros Hfl Hfirst Hlast Hbefore Hafter.
  assert (Hhome : skipPlaceholders (c st) false n 0
                  = if bool_decide (first = 0) then 0 else last_).
  { destruct (skipPlaceholders_backward (c st) n (Nat.le_refl _) 0 ltac:(fold n; lia))
      as (k & Hk & Hres & Hall & Hfound).
    fold n in Hres, Hall, Hfound. rewrite Hres.
    case_bool_decide as H0.
    - subst first. destruct k as [|k]; [mod_lia|].
      specialize (Hall 0 ltac:(lia)).
      replace ((0 + (n - 0)) mod n) with 0 in Hall by mod_lia. congruence.
    - assert (Hle : k <= n - last_).
      { destruct (Nat.le_gt_cases k (n - last_)) as [H|H]; [exact H|].
        specialize (Hall (n - last_) H).
        replace ((0 + (n - (n - last_))) mod n) with last_ in Hall by mod_lia.
        congruence. }
      specialize (Hfound ltac:(lia)).
      destruct k as [|k].
      + replace ((0 + (n - 0)) mod n) with 0 in Hfound by mod_lia.
        rewrite Hbefore in Hfound by lia. discriminate.
      + replace ((0 + (n - S k)) mod n) with (n - S k) in * by mod_lia.
        destruct (Nat.eq_dec (n - S k) last_) as [E|E]; [exact E|].
        rewrite Hafter in Hfound by lia. discriminate. }
  assert (Hend : skipPlaceholders (c st) true n (n - 1)
                 = if bool_decide (last_ = n - 1) then last_ else first).
  { clear Hhome.
    destruct (skipPlaceholders_forward (c st) n (n - 1) ltac:(fold n; lia))
      as (k & Hk & Hres & Hall & Hfound).
    fold n in Hres, Hall, Hfound. rewrite Hres.
    case_bool_decide as H0.
    - destruct k as [|k]; [mod_lia|].
      specialize (Hall 0 ltac:(lia)).
      replace ((n - 1 + 0) mod n) with last_ in Hall by mod_lia. congruence.
    - assert (Hle : k <= first + 1).
      { destruct (Nat.le_gt_cases k (first + 1)) as [H|H]; [exact H|].
        specialize (Hall (first + 1) H).
        replace ((n - 1 + (first + 1)) mod n) with first in Hall by mod_lia.
        congruence. }
      specialize (Hfound ltac:(lia)).
      destruct k as [|k].
      + replace ((n - 1 + 0) mod n) with (n - 1) in Hfound by mod_lia.
        rewrite Hafter in Hfound by lia. discriminate.
      + replace ((n - 1 + S k) mod n) with k in * by mod_lia.
        destruct (Nat.eq_dec k first) as [E|E]; [exact E|].
        rewrite Hbefore in Hfound by lia. discriminate. }
  unfold onKeydown, moveTo. fold n.
  destruct (isVertical st); cbn [key_eqb orb]; rewrite Hhome, Hend;
    case_bool_decide; split; try reflexivity; subst; reflexivity.
Qed.

Lemma home_end_targets_witness :
  let st := init [placeholderTab; plainTab; plainTab; placeholderTab]
                 [plainPanel; plainPanel; plainPanel; plainPanel] false in
  onKeydown 1 Home st = moveTo (if bool_decide (1 = 0) then 0 else 2) 1 st
  /\ onKeydown 1 End_ st
     = moveTo (if bool_decide (2 = length (c st) - 1) then 2 else 1) 1 st.
Proof.
  apply (home_end_targets
           (init [placeholderTab; plainTab; plainTab; placeholderTab]
                 [plainPanel; plainPanel; plainPanel; plainPanel] false) 1 1 2).
  - cbn. lia.
  - reflexivity.
  - reflexivity.
  - intros m Hm. assert (m = 0) as -> by lia. reflexivity.
  - cbn. intros m Hm. assert (m = 3) as -> by lia. reflexivity.
Defined.

(** ** The debounced corrective pass *)

Lemma clearTimeout_only (id : nat) : clearTimeout id [id] = [].
Proof.
  unfold clearTimeout. rewrite filter_cons, decide_False by (intros H; now apply H).
  reflexivity.
Qed.

Lemma watchStep_debounce (w : Watched) (e : WatchEvent) :
  onePending (observer w) ->
  let w' := watchStep w e in
  onePending (observer w')
  /\ correctivePasses w' <= correctivePasses w + (if isFire e then 1 else 0)
  /\ correctivePasses w' + pendingCount (observer w')
     <= correctivePasses w + pendingCount (observer w) + (if isNotify e then 1 else 0).
Proof.
  unfold onePending, pendingCount. intros Hone. cbv zeta.
  destruct e as [mutations| |index offsetHeight]; cbn [watchStep isFire isNotify].
  - cbn [observer correctivePasses]. unfold observerCallback.
    destruct (forallb height_locked (layouts w) && bool_decide (0 < length (layouts w)));
      [(split; [exact Hone | lia])|].
    destruct (existsb mutationNeedsFix mutations);
      [|(split; [exact Hone | lia])].
    cbn [debounceTimer pendingFixes]. rewrite Hone.
    destruct (debounceTimer (observer w)) as [id|].
    + rewrite clearTimeout_only. (split; [reflexivity | lia]).
    + (split; [reflexivity | lia]).
  - destruct (debounceTimer (observer w)) as [id|] eqn:Ht.
    + cbn [observer correctivePasses debounceTimer pendingFixes].
      rewrite Hone, clearTimeout_only. (split; [reflexivity | lia]).
    + rewrite Ht. (split; [exact Hone | lia]).
  - cbn [observer correctivePasses]. (split; [exact Hone | lia]).
Qed.

(** X23.  The corrective pass is debounced.  Starting with at most the
    observer's own timeout pending, after any sequence of mutation
    notifications, timeouts running and images loading there is still at
    most that one pass pending; the number of passes run grows by no more
    than the number of timeouts that ran, and passes run plus the pass
    pending grow by no more than the number of notifications. *)
Theorem debounce_single_pending_pass (w : Watched) (es : list WatchEvent) :
  onePending (observer w) ->
  onePending (observer (foldl watchStep w es))
  /\ correctivePasses (foldl watchStep w es)
     <= correctivePasses w + length (List.filter isFire es)
  /\ correctivePasses (foldl watchStep w es) + pendingCount (observer (foldl watchStep w es))
     <= correctivePasses w + pendingCount (observer w) + length (List.filter isNotify es).
Proof.
  revert w. induction es as [|e es IH]; intros w Hone.
  - cbn. (split; [exact Hone | lia]).
  - destruct (watchStep_debounce w e Hone) as (Hone' & Hfire & Hnotify).
    destruct (IH (watchStep w e) Hone') as (Hone'' & Hfires & Hnotifies).
    cbn [foldl List.filter].
    split; [exact Hone''|].
    destruct (isFire e), (isNotify e); cbn [length]; lia.
Qed.

Lemma debounce_single_pending_pass_witness :
  let unlocked :=
    {| height_locked := false; style_width := "100vw";
       style_marginLeft := "calc(-50vw + 50%)" |} in
  let w := {| layouts := [unlocked]; observer := idleObserver; correctivePasses := 0 |} in
  let es := [Notify [AttributesMutation "style" unlocked];
             Notify [ChildListMutation 1 unlocked];
             DebounceFires; DebounceFires] in
  onePending (observer (foldl watchStep w es))
  /\ correctivePasses (foldl watchStep w es)
     <= correctivePasses w + length (List.filter isFire es)
  /\ correctivePasses (foldl watchStep w es) + pendingCount (observer (foldl watchStep w es))
     <= correctivePasses w + pendingCount (observer w) + length (List.filter isNotify es).
Proof.
  apply (debounce_single_pending_pass
           {| layouts := [{| height_locked := false; style_width := "100vw";
                             style_marginLeft := "calc(-50vw + 50%)" |}];
              observer := idleObserver; correctivePasses := 0 |}).
  reflexivity.
Defined.

(** ** Finding a tab by its label *)

Lemma findFrom_first_match (labelText : string) (texts : list string) (index : Z) :
  (findFrom texts index labelText = (-1)%Z
   /\ forall m text, texts !! m = Some text -> tabKey text <> labelKey labelText)
  \/ exists k text,
       findFrom texts index labelText = (index + Z.of_nat k)%Z
       /\ texts !! k = Some text
       /\ tabKey text = labelKey labelText
       /\ forall m text', m < k -> texts !! m = Some text' ->
            tabKey text' <> labelKey labelText.
Proof.
  revert index. induction texts as [|text rest IH]; intros index.
  - left. split; [reflexivity|]. intros m text Hm. discriminate.
  - cbn [findFrom]. destruct (String.eqb_spec (tabKey text) (labelKey labelText)) as [E|E].
    + right. exists 0, text. split; [lia|]. split; [reflexivity|]. split; [exact E|].
      intros m text' Hm. lia.
    + destruct (IH (index + 1)%Z) as [[Hnone Hall]|(k & found & Hres & Hk & Hkey & Hbefore)].
      * left. split; [exact Hnone|]. intros [|m] text' Hm.
        -- injection Hm as <-. exact E.
        -- exact (Hall m text' Hm).
      * right. exists (S k), found. split; [lia|]. split; [exact Hk|]. split; [exact Hkey|].
        intros [|m] text' Hm Hlook.
        -- injection Hlook as <-. exact E.
        -- apply (Hbefore m text'); [lia | exact Hlook].
Qed.

(** X24.  [picanvas-find-tab] returns the index of the FIRST tab whose
    text (trimmed, lower-cased, each run of white space turned into one
    hyphen) equals the label (lower-cased and hyphenated the same way,
    but not trimmed), and -1 exactly when no tab matches; a result other
    than -1 is the index of an existing tab. *)
Theorem findTab_first_match (texts : list string) (labelText : string) :
  (findTab texts labelText = (-1)%Z
   /\ forall m text, texts !! m = Some text -> tabKey text <> labelKey labelText)
  \/ exists k text,
       findTab texts labelText = Z.of_nat k
       /\ k < length texts
       /\ texts !! k = Some text
       /\ tabKey text = labelKey labelText
       /\ forall m text', m < k -> texts !! m = Some text' ->
            tabKey text' <> labelKey labelText.
Proof.
  unfold findTab.
  destruct (findFrom_first_match labelText texts 0)
    as [H|(k & text & Hres & Hk & Hkey & Hbefore)]; [left; exact H|].
  right. exists k, text. split; [rewrite Hres; lia|].
  split; [eauto using lookup_lt_Some|]. auto.
Qed.

(** ** The tab that is active at the start *)

Lemma lastActive_spec (panels : list Panel) :
  forall index u0,
  (lastActive panels index u0 = u0
   /\ forall m p, panels !! m = Some p -> class_active p = false)
  \/ exists k p,
       lastActive panels index u0 = index + k
       /\ panels !! k = Some p
       /\ class_active p = true
       /\ forall m q, k < m -> panels !! m = Some q -> class_active q = false.
Proof.
  induction panels as [|p rest IH]; intros index u0.
  - left. split; [reflexivity|]. intros m p Hm. discriminate.
  - cbn [lastActive].
    destruct (IH (S index) (if class_active p then index else u0))
      as [[Hres Hall]|(k & q & Hres & Hk & Hq & Hafter)].
    + destruct (class_active p) eqn:Hp.
      * right. exists 0, p. split; [lia|]. split; [reflexivity|]. split; [exact Hp|].
        intros [|m] q Hm Hlook; [lia|]. exact (Hall m q Hlook).
      * left. split; [exact Hres|]. intros [|m] q Hlook.
        -- injection Hlook as <-. exact Hp.
        -- exact (Hall m q Hlook).
    + right. exists (S k), q. split; [lia|]. split; [exact Hk|]. split; [exact Hq|].
      intros [|m] q' Hm Hlook; [lia|]. apply (Hafter m q'); [lia | exact Hlook].
Qed.

(** X25.  The tab that is active after the set-up is the LAST panel that
    carries the class [active] in the markup, and tab 0 when no panel
    does; the set-up takes the class [active] off every panel, and hides
    ([aria-hidden="true"]) every panel but the active one. *)
Theorem initial_tab_is_last_marked_active (tabs : list Tab) (panels : list Panel)
    (vertical : bool) :
  let st := init tabs panels vertical in
  ((u st = 0 /\ forall m p, panels !! m = Some p -> class_active p = false)
   \/ exists p, panels !! u st = Some p
        /\ class_active p = true
        /\ forall m q, u st < m -> panels !! m = Some q -> class_active q = false)
  /\ forall m p, r st !! m = Some p ->
       class_active p = false
       /\ panel_class_active p = bool_decide (m = u st)
       /\ (m ≠ u st -> aria_hidden p = Some "true").
Proof.
  cbv zeta. split.
  - cbn [init u].
    destruct (lastActive_spec panels 0 0) as [H|(k & p & Hres & Hk & Hp & Hafter)];
      [left; exact H|].
    right. exists p. rewrite Hres. cbn [Nat.add]. auto.
  - intros m p. rewrite init_panel_lookup. cbn [init u].
    destruct (panels !! m) as [q|]; [|discriminate].
    intros [= <-]. cbn [initPanel class_active panel_class_active aria_hidden].
    split; [reflexivity|]. split; [reflexivity|].
    intros Hne. now rewrite bool_decide_true.
Qed.

End TabsMoreProps.
